(** * SimpleVector: a growable array over an exclusively owned buffer

    Shallow embedding of [simple_vector.h].  The container is a record of
    its three private fields; a buffer is the list of its allocated slots,
    so that the number of allocated slots is the length of that list and is
    independent of the [capacity_] field the code maintains by hand.

    Every access to a slot goes through [read] and [write], which fail with
    [OutOfBounds] when the index is not an allocated slot: what is undefined
    behaviour in C++ is an explicit failure here. *)

From stdpp Require Import base numbers option list gmap.

Local Open Scope Z_scope.

(** ** size_t *)

(** [size_t] is a 64-bit unsigned integer: arithmetic wraps modulo 2^64. *)
Definition size_t_modulus : Z := 2 ^ 64.

Definition wrap (x : Z) : Z := x mod size_t_modulus.

(** [--x] on a [size_t]. *)
Definition decr (x : Z) : Z := wrap (x - 1).

(** ** Outcomes *)

Inductive fault : Set :=
  | OutOfRangeError   (* std::out_of_range was thrown *)
  | AssertFailure     (* an assert(...) did not hold *)
  | OutOfBounds       (* a slot outside the allocated storage was accessed *)
  | InvalidRange      (* an iterator range [first, last) with last before first *)
  | DanglingRef.      (* a reference to an object that does not exist *)

Inductive outcome (A : Type) : Type :=
  | Done (a : A)
  | Fail (e : fault).

Arguments Done {A} a.
Arguments Fail {A} e.

#[global] Instance outcome_ret : MRet outcome := fun A a => Done a.

#[global] Instance outcome_bind : MBind outcome := fun A B f m =>
  match m with
  | Done a => f a
  | Fail e => Fail e
  end.

(** Number of elements of the range [first, last). *)
Definition distance (first last : Z) : outcome nat :=
  if first <=? last then Done (Z.to_nat (last - first)) else Fail InvalidRange.

(** ** The capacity reservation request *)

Record ReserveProxyObj : Set := mkReserveProxyObj {
  capacity_to_reserve_ : Z
}.

(** The free function [Reserve(size_t capacity_to_reserve)]. *)
Definition Reserve_proxy (capacity_to_reserve : Z) : ReserveProxyObj :=
  mkReserveProxyObj capacity_to_reserve.

(** ** The element type *)

(** What the container template asks of its parameter [Type]. *)
Class Element (T : Type) : Type := {
  (** the value of [Type()] *)
  elt_default : T;
  (** what a moved-from element is left holding (itself, for [int]) *)
  elt_moved : T -> T;
  (** what slot [i] of a new array holds before anything is assigned to it *)
  elt_fresh : nat -> T;
  (** [operator==] and [operator<] *)
  elt_eq : T -> T -> bool;
  elt_lt : T -> T -> bool
}.

(** [int].  A new [int] array holds indeterminate values; -1 stands for
    them. *)
#[global] Instance int_element : Element Z := {|
  elt_default := 0;
  elt_moved := fun x => x;
  elt_fresh := fun _ => -1;
  elt_eq := Z.eqb;
  elt_lt := Z.ltb
|}.

Section Container.

Context {T : Type} `{!Element T}.

(** ** The raw buffer owner *)

(** Modelled from the spec: [array_ptr.h] (class [ArrayPtr]) is not among
    the sources.  The spec asks of it: given a requested slot count, it
    exclusively owns that many contiguous slots, gives index-based read and
    write access, swaps ownership with another instance, and holds no
    storage when the count is 0.

    An allocation that cannot be served throws before the container is
    touched.  That path is not part of the model: a result [Done] describes
    a call whose allocations were served, and properties of requests of
    arbitrary size are stated of the calls that return. *)
Definition ArrayPtr (n : Z) : list T := elt_fresh <$> seq 0 (Z.to_nat n).

(** Modelled from the spec: [ArrayPtr::swap], the exchange of the storage
    of two owners.  Returns the new content of each. *)
Definition ArrayPtr_swap (this other : list T) : list T * list T :=
  (other, this).

(** Modelled from the spec: the move constructor of [ArrayPtr], a wholesale
    transfer of ownership.  Returns the new owner's storage and what the
    source is left with, which is no storage. *)
Definition ArrayPtr_move (other : list T) : list T * list T :=
  (other, []).

(** A slot is named by its offset from the start of the buffer, a signed
    number as pointer differences are; only the offsets from 0 up to the
    number of slots name storage. *)
Definition in_bounds (buf : list T) (i : Z) : Prop :=
  0 <= i < Z.of_nat (length buf).

Definition read (buf : list T) (i : Z) : outcome T :=
  if decide (in_bounds buf i)
  then match buf !! Z.to_nat i with
       | Some x => Done x
       | None => Fail OutOfBounds
       end
  else Fail OutOfBounds.

Definition write (buf : list T) (i : Z) (x : T) : outcome (list T) :=
  if decide (in_bounds buf i)
  then Done (<[Z.to_nat i := x]> buf)
  else Fail OutOfBounds.

(** ** The algorithms of the standard library the container calls

    Each loop runs [n] times, [n] being the length of the source range;
    the positions are slot indices counted from the start of the buffer. *)

(** [std::fill(first, first + n, x)]. *)
Fixpoint std_fill (n : nat) (buf : list T) (first : Z) (x : T)
  : outcome (list T) :=
  match n with
  | O => Done buf
  | S n' => buf' ← write buf first x; std_fill n' buf' (first + 1) x
  end.

(** [std::for_each(first, first + n, [](Type& item) { item = Type(); })]. *)
Fixpoint for_each_reset (n : nat) (buf : list T) (first : Z)
  : outcome (list T) :=
  match n with
  | O => Done buf
  | S n' => buf' ← write buf first elt_default; for_each_reset n' buf' (first + 1)
  end.

(** [std::copy(first, first + n, d_first)] from a buffer that is only read
    (also [std::move] out of an initializer list, whose elements are
    const) into another buffer. *)
Fixpoint std_copy (n : nat) (src : list T) (first : Z)
    (dst : list T) (d_first : Z) : outcome (list T) :=
  match n with
  | O => Done dst
  | S n' =>
      x ← read src first;
      dst' ← write dst d_first x;
      std_copy n' src (first + 1) dst' (d_first + 1)
  end.

(** [std::move(first, first + n, d_first)] from one buffer into another:
    each element is move-assigned, front to back.  Returns both buffers. *)
Fixpoint std_move (n : nat) (src : list T) (first : Z)
    (dst : list T) (d_first : Z) : outcome (list T * list T) :=
  match n with
  | O => Done (src, dst)
  | S n' =>
      x ← read src first;
      dst' ← write dst d_first x;
      src' ← write src first (elt_moved x);
      std_move n' src' (first + 1) dst' (d_first + 1)
  end.

(** [std::move(first, first + n, d_first)] when source and destination
    lie in the same buffer. *)
Fixpoint std_move_within (n : nat) (buf : list T) (first d_first : Z)
  : outcome (list T) :=
  match n with
  | O => Done buf
  | S n' =>
      x ← read buf first;
      buf1 ← write buf d_first x;
      buf2 ← write buf1 first (elt_moved x);
      std_move_within n' buf2 (first + 1) (d_first + 1)
  end.

(** [std::move_backward(last - n, last, d_last)] inside one buffer: both
    cursors are decremented before each move-assignment. *)
Fixpoint std_move_backward (n : nat) (buf : list T) (last d_last : Z)
  : outcome (list T) :=
  match n with
  | O => Done buf
  | S n' =>
      let last' := last - 1 in
      let d_last' := d_last - 1 in
      x ← read buf last';
      buf1 ← write buf d_last' x;
      buf2 ← write buf1 last' (elt_moved x);
      std_move_backward n' buf2 last' d_last'
  end.

(** ** The container *)

Record SimpleVector : Type := mkSimpleVector {
  array_ : list T;
  size_ : Z;
  capacity_ : Z
}.

(** [begin()] is slot 0 of the owned buffer and [end()] is [begin() + size_];
    an iterator is represented by its slot offset from [begin()]. *)
Definition begin_ (v : SimpleVector) : Z := 0.
Definition end_ (v : SimpleVector) : Z := begin_ v + size_ v.

Definition cbegin_ (v : SimpleVector) : Z := begin_ v.
Definition cend_ (v : SimpleVector) : Z := end_ v.

Definition GetSize (v : SimpleVector) : Z := size_ v.
Definition GetCapacity (v : SimpleVector) : Z := capacity_ v.
Definition IsEmpty (v : SimpleVector) : bool := size_ v =? 0.

(** *** Constructors *)

(** [SimpleVector() noexcept = default]. *)
Definition SimpleVector_default : SimpleVector :=
  {| array_ := []; size_ := 0; capacity_ := 0 |}.

(** [explicit SimpleVector(size_t size)]. *)
Definition SimpleVector_size (size : Z) : outcome SimpleVector :=
  let v := {| array_ := ArrayPtr size; size_ := size; capacity_ := size |} in
  n ← distance (begin_ v) (end_ v);
  buf ← std_fill n (array_ v) (begin_ v) elt_default;
  mret {| array_ := buf; size_ := size_ v; capacity_ := capacity_ v |}.

(** [explicit SimpleVector(ReserveProxyObj r)]. *)
Definition SimpleVector_reserve (r : ReserveProxyObj) : SimpleVector :=
  {| array_ := ArrayPtr (capacity_to_reserve_ r);
     size_ := 0;
     capacity_ := capacity_to_reserve_ r |}.

(** [SimpleVector(size_t size, const Type& value)]. *)
Definition SimpleVector_size_value (size : Z) (value : T)
  : outcome SimpleVector :=
  let v := {| array_ := ArrayPtr size; size_ := size; capacity_ := size |} in
  n ← distance (begin_ v) (end_ v);
  buf ← std_fill n (array_ v) (begin_ v) value;
  mret {| array_ := buf; size_ := size_ v; capacity_ := capacity_ v |}.

(** [SimpleVector(std::initializer_list<Type> init)]. *)
Definition SimpleVector_init (init : list T) : outcome SimpleVector :=
  let size := Z.of_nat (length init) in
  let v := {| array_ := ArrayPtr size; size_ := size; capacity_ := size |} in
  buf ← std_copy (length init) init 0 (array_ v) (begin_ v);
  mret {| array_ := buf; size_ := size_ v; capacity_ := capacity_ v |}.

(** [SimpleVector(const SimpleVector& other)]. *)
Definition SimpleVector_copy (other : SimpleVector) : outcome SimpleVector :=
  let v := {| array_ := ArrayPtr (GetCapacity other);
              size_ := GetSize other;
              capacity_ := GetCapacity other |} in
  n ← distance (begin_ other) (end_ other);
  buf ← std_copy n (array_ other) (begin_ other) (array_ v) (begin_ v);
  mret {| array_ := buf; size_ := size_ v; capacity_ := capacity_ v |}.

(** [SimpleVector(SimpleVector&& other) noexcept]: the new container, and
    what is left of [other] ([std::exchange] stores 0 in its two counters). *)
Definition SimpleVector_move (other : SimpleVector)
  : SimpleVector * SimpleVector :=
  let moved_array := ArrayPtr_move (array_ other) in
  ({| array_ := moved_array.1;
      size_ := size_ other;
      capacity_ := capacity_ other |},
   {| array_ := moved_array.2; size_ := 0; capacity_ := 0 |}).

(** [void swap(SimpleVector& other) noexcept]: the new [*this] and the new
    [other]. *)
Definition swap (this other : SimpleVector) : SimpleVector * SimpleVector :=
  let swapped := ArrayPtr_swap (array_ this) (array_ other) in
  ({| array_ := swapped.1;
      size_ := size_ other;
      capacity_ := capacity_ other |},
   {| array_ := swapped.2;
      size_ := size_ this;
      capacity_ := capacity_ this |}).

(** *** Modifiers *)

(** [void PushBack(Type item)]. *)
Definition PushBack (v : SimpleVector) (item : T) : outcome SimpleVector :=
  v1 ← (if size_ v =? capacity_ v then
          let new_capacity_ :=
            if capacity_ v =? 0 then 1 else wrap (capacity_ v * 2) in
          let new_array_ := ArrayPtr new_capacity_ in
          n ← distance (begin_ v) (end_ v);
          '(old, new) ← std_move n (array_ v) (begin_ v) new_array_ 0;
          mret {| array_ := (ArrayPtr_swap old new).1; size_ := size_ v;
                  capacity_ := new_capacity_ |}
        else mret v);
  buf ← write (array_ v1) (size_ v1) item;
  mret {| array_ := buf; size_ := wrap (size_ v1 + 1);
          capacity_ := capacity_ v1 |}.

(** [Iterator Insert(ConstIterator pos, Type value)]: the returned
    iterator and the container afterwards. *)
Definition Insert (v : SimpleVector) (pos : Z) (value : T)
  : outcome (Z * SimpleVector) :=
  let index_pos := wrap (pos - begin_ v) in
  if size_ v =? capacity_ v then
    let new_capacity_ :=
      if capacity_ v =? 0 then 1 else wrap (capacity_ v * 2) in
    let new_array_ := ArrayPtr new_capacity_ in
    n1 ← distance (begin_ v) (begin_ v + index_pos);
    '(old1, new1) ← std_move n1 (array_ v) (begin_ v) new_array_ 0;
    new2 ← write new1 index_pos value;
    n2 ← distance (begin_ v + index_pos) (end_ v);
    '(old2, new3) ←
      std_move n2 old1 (begin_ v + index_pos) new2 (0 + index_pos + 1);
    let v' := {| array_ := (ArrayPtr_swap old2 new3).1;
                 size_ := wrap (size_ v + 1);
                 capacity_ := new_capacity_ |} in
    mret (begin_ v' + index_pos, v')
  else
    let v1 := {| array_ := array_ v; size_ := wrap (size_ v + 1);
                 capacity_ := capacity_ v |} in
    n ← distance (begin_ v1 + index_pos) (begin_ v1 + size_ v1 - 1);
    buf ← std_move_backward n (array_ v1) (begin_ v1 + size_ v1 - 1) (end_ v1);
    buf' ← write buf index_pos value;
    let v' := {| array_ := buf'; size_ := size_ v1;
                 capacity_ := capacity_ v1 |} in
    mret (begin_ v' + index_pos, v').

(** [void PopBack() noexcept]. *)
Definition PopBack (v : SimpleVector) : outcome SimpleVector :=
  if 0 <? size_ v
  then mret {| array_ := array_ v; size_ := decr (size_ v);
               capacity_ := capacity_ v |}
  else Fail AssertFailure.

(** [Iterator Erase(ConstIterator pos)]. *)
Definition Erase (v : SimpleVector) (pos : Z) : outcome (Z * SimpleVector) :=
  let index_pos := wrap (pos - begin_ v) in
  n ← distance (begin_ v + index_pos + 1) (end_ v);
  buf ← std_move_within n (array_ v)
          (begin_ v + index_pos + 1) (begin_ v + index_pos);
  let v' := {| array_ := buf; size_ := decr (size_ v);
               capacity_ := capacity_ v |} in
  mret (begin_ v' + index_pos, v').

(** [void Reserve(size_t new_capacity)]. *)
Definition Reserve (v : SimpleVector) (new_capacity : Z)
  : outcome SimpleVector :=
  if capacity_ v <? new_capacity then
    let new_array_ := ArrayPtr new_capacity in
    n ← distance (begin_ v) (end_ v);
    '(old, new) ← std_move n (array_ v) (begin_ v) new_array_ 0;
    mret {| array_ := (ArrayPtr_swap old new).1; size_ := size_ v;
            capacity_ := new_capacity |}
  else mret v.

(** [void Clear() noexcept]. *)
Definition Clear (v : SimpleVector) : SimpleVector :=
  {| array_ := array_ v; size_ := 0; capacity_ := capacity_ v |}.

(** [void Resize(size_t new_size)]. *)
Definition Resize (v : SimpleVector) (new_size : Z) : outcome SimpleVector :=
  if capacity_ v <? new_size then
    let new_array_ := ArrayPtr new_size in
    n ← distance (begin_ v) (end_ v);
    '(old, new1) ← std_move n (array_ v) (begin_ v) new_array_ 0;
    m ← distance (0 + size_ v) (0 + new_size);
    new2 ← for_each_reset m new1 (0 + size_ v);
    mret {| array_ := (ArrayPtr_swap old new2).1; size_ := new_size;
            capacity_ := Z.max new_size (wrap (capacity_ v * 2)) |}
  else if size_ v <? new_size then
    m ← distance (begin_ v + size_ v) (begin_ v + new_size);
    buf ← for_each_reset m (array_ v) (begin_ v + size_ v);
    mret {| array_ := buf; size_ := new_size; capacity_ := capacity_ v |}
  else
    mret {| array_ := array_ v; size_ := new_size;
            capacity_ := capacity_ v |}.

(** *** Element access *)

(** [Type& operator[](size_t index) noexcept], read through the returned
    reference. *)
Definition subscript (v : SimpleVector) (index : Z) : outcome T :=
  if (0 <? size_ v) && (index <? size_ v)
  then read (array_ v) index
  else Fail AssertFailure.

(** [v[index] = x]: an assignment through the reference returned by the
    non-const [operator[]]. *)
Definition subscript_assign (v : SimpleVector) (index : Z) (x : T)
  : outcome SimpleVector :=
  if (0 <? size_ v) && (index <? size_ v)
  then buf ← write (array_ v) index x;
       mret {| array_ := buf; size_ := size_ v; capacity_ := capacity_ v |}
  else Fail AssertFailure.

(** [Type& At(size_t index)]: the element the returned reference names,
    and the container afterwards. *)
Definition At (v : SimpleVector) (index : Z) : outcome (T * SimpleVector) :=
  if size_ v <=? index then Fail OutOfRangeError
  else x ← read (array_ v) index; mret (x, v).

(** *** Relational operators *)

(** The loop of [std::equal] over two ranges of the same length [n]. *)
Fixpoint equal_loop (n : nat) (b1 : list T) (first1 : Z)
    (b2 : list T) (first2 : Z) : outcome bool :=
  match n with
  | O => mret true
  | S n' =>
      x ← read b1 first1;
      y ← read b2 first2;
      if elt_eq x y then equal_loop n' b1 (first1 + 1) b2 (first2 + 1)
      else mret false
  end.

(** [std::equal(first1, last1, first2, last2)] on random-access iterators:
    ranges of different lengths are unequal without any comparison. *)
Definition std_equal (b1 : list T) (first1 last1 : Z)
    (b2 : list T) (first2 last2 : Z) : outcome bool :=
  n1 ← distance first1 last1;
  n2 ← distance first2 last2;
  if decide (n1 = n2) then equal_loop n1 b1 first1 b2 first2
  else mret false.

(** [std::lexicographical_compare] over ranges of [n1] and [n2] elements:
    the first position where one element is less than the other decides;
    when one range runs out first, the result is whether it is the first
    range that ran out and the second did not. *)
Fixpoint std_lexicographical_compare (n1 n2 : nat) (b1 : list T) (first1 : Z)
    (b2 : list T) (first2 : Z) : outcome bool :=
  match n1, n2 with
  | S n1', S n2' =>
      x ← read b1 first1;
      y ← read b2 first2;
      if elt_lt x y then mret true
      else if elt_lt y x then mret false
      else std_lexicographical_compare n1' n2' b1 (first1 + 1) b2 (first2 + 1)
  | O, S _ => mret true
  | _, O => mret false
  end.

(** [operator==]. *)
Definition op_eq (lhs rhs : SimpleVector) : outcome bool :=
  std_equal (array_ lhs) (begin_ lhs) (end_ lhs)
            (array_ rhs) (begin_ rhs) (end_ rhs).

(** [operator!=]. *)
Definition op_ne (lhs rhs : SimpleVector) : outcome bool :=
  b ← op_eq lhs rhs; mret (negb b).

(** [operator<]. *)
Definition op_lt (lhs rhs : SimpleVector) : outcome bool :=
  n1 ← distance (begin_ lhs) (end_ lhs);
  n2 ← distance (begin_ rhs) (end_ rhs);
  std_lexicographical_compare n1 n2 (array_ lhs) (begin_ lhs)
                                    (array_ rhs) (begin_ rhs).

(** [operator<=]: [lhs < rhs || lhs == rhs]. *)
Definition op_le (lhs rhs : SimpleVector) : outcome bool :=
  b ← op_lt lhs rhs; if b : bool then mret true else op_eq lhs rhs.

(** [operator>]: [rhs < lhs]. *)
Definition op_gt (lhs rhs : SimpleVector) : outcome bool :=
  op_lt rhs lhs.

(** [operator>=]: [lhs > rhs || lhs == rhs]. *)
Definition op_ge (lhs rhs : SimpleVector) : outcome bool :=
  b ← op_gt lhs rhs; if b : bool then mret true else op_eq lhs rhs.

(** *** Assignment

    An assignment names two objects that may be one and the same, so it is
    a transformation of a store of containers indexed by their addresses. *)

Definition deref (σ : gmap nat SimpleVector) (l : nat)
  : outcome SimpleVector :=
  match σ !! l with
  | Some v => Done v
  | None => Fail DanglingRef
  end.

(** [SimpleVector& operator=(const SimpleVector& rhs)]. *)
Definition assign_copy (this rhs : nat) (σ : gmap nat SimpleVector)
  : outcome (gmap nat SimpleVector) :=
  if decide (this ≠ rhs) then
    other ← deref σ rhs;
    tmp ← SimpleVector_copy other;
    self ← deref σ this;
    let '(self', tmp') := swap self tmp in
    mret (<[this := self']> σ)
  else mret σ.

(** [SimpleVector& operator=(SimpleVector&& rhs) noexcept].  Inside the
    body [rhs] is a named variable, hence an lvalue: [SimpleVector tmp(rhs)]
    selects the copy constructor. *)
Definition assign_move (this rhs : nat) (σ : gmap nat SimpleVector)
  : outcome (gmap nat SimpleVector) :=
  other ← deref σ rhs;
  tmp ← SimpleVector_copy other;
  self ← deref σ this;
  let '(self', tmp') := swap self tmp in
  mret (<[this := self']> σ).

(** [SimpleVector b(std::move(a))] for the object at [a], the new object
    being placed at [b]. *)
Definition construct_move (b a : nat) (σ : gmap nat SimpleVector)
  : outcome (gmap nat SimpleVector) :=
  other ← deref σ a;
  let '(new, other') := SimpleVector_move other in
  mret (<[b := new]> (<[a := other']> σ)).

(** ** Observations *)

(** The logical sequence: the first [size_] slots of the buffer. *)
Definition logical (v : SimpleVector) : list T :=
  take (Z.to_nat (size_ v)) (array_ v).

(** The number of slots the owned buffer really has. *)
Definition allocated (v : SimpleVector) : Z := Z.of_nat (length (array_ v)).

End Container.

Arguments SimpleVector : clear implicits.

(** ** Invariants and reachable states *)

Section Invariants.

Context {T : Type} `{!Element T}.

(** A value of type [size_t]. *)
Definition is_size_t (n : Z) : Prop := 0 <= n < size_t_modulus.

(** The logical range lies within the storage the buffer really has, which
    is no larger than the recorded capacity. *)
Definition consistent (v : SimpleVector T) : Prop :=
  0 <= size_ v <= allocated v /\ allocated v <= capacity_ v.

(** The invariant of the data model: [size_ <= capacity_], and
    [capacity_] is the number of allocated slots. *)
Definition wf (v : SimpleVector T) : Prop :=
  0 <= size_ v <= capacity_ v /\ allocated v = capacity_ v.

(** The slot that an append or an insertion writes when it does not grow
    the buffer, the one after the last element, is allocated.  (When size
    and capacity are equal the buffer is grown first.) *)
Definition appendable (v : SimpleVector T) : Prop :=
  consistent v /\ (size_ v <> capacity_ v -> size_ v < allocated v).

(** Doubling the capacity does not overflow [size_t].  This holds of every
    container that fits in memory: an array spans at most [PTRDIFF_MAX]
    bytes, so it has fewer than 2^63 slots. *)
Definition can_double (v : SimpleVector T) : Prop :=
  capacity_ v * 2 < size_t_modulus.

(** The containers that calls of the public operations, each within its
    contract, can produce. *)
Inductive reachable : SimpleVector T -> Prop :=
  | reach_default : reachable SimpleVector_default
  | reach_size n v :
      is_size_t n -> SimpleVector_size n = Done v -> reachable v
  | reach_reserve n :
      is_size_t n -> reachable (SimpleVector_reserve (Reserve_proxy n))
  | reach_size_value n x v :
      is_size_t n -> SimpleVector_size_value n x = Done v -> reachable v
  | reach_init l v :
      is_size_t (Z.of_nat (length l)) ->
      SimpleVector_init l = Done v -> reachable v
  | reach_copy u v :
      reachable u -> SimpleVector_copy u = Done v -> reachable v
  | reach_move_new u :
      reachable u -> reachable (SimpleVector_move u).1
  | reach_move_old u :
      reachable u -> reachable (SimpleVector_move u).2
  | reach_swap u w :
      reachable u -> reachable w -> reachable (swap u w).1
  | reach_PushBack u x v :
      reachable u -> PushBack u x = Done v -> reachable v
  | reach_Insert u pos x it v :
      reachable u -> 0 <= pos <= size_ u ->
      Insert u pos x = Done (it, v) -> reachable v
  | reach_PopBack u v :
      reachable u -> PopBack u = Done v -> reachable v
  | reach_Erase u pos it v :
      reachable u -> 0 <= pos < size_ u ->
      Erase u pos = Done (it, v) -> reachable v
  | reach_Reserve u n v :
      reachable u -> is_size_t n -> Reserve u n = Done v -> reachable v
  | reach_Clear u :
      reachable u -> reachable (Clear u)
  | reach_Resize u n v :
      reachable u -> is_size_t n -> Resize u n = Done v -> reachable v
  | reach_subscript_assign u i x v :
      reachable u -> is_size_t i ->
      subscript_assign u i x = Done v -> reachable v.

(** ** The order the relational operators are specified to implement *)

(** Element-wise equality of two sequences (of the same length). *)
Definition elementwise_equal (l1 l2 : list T) : Prop :=
  Forall2 (fun x y => elt_eq x y = true) l1 l2.

(** The standard lexicographic order: a sequence is less than another when
    it is a strict prefix of it, or when at the first position where one
    element is less than the other, the lesser one is its own. *)
Inductive lexicographic_less : list T -> list T -> Prop :=
  | lex_prefix y l2 :
      lexicographic_less [] (y :: l2)
  | lex_first x y l1 l2 :
      elt_lt x y = true -> lexicographic_less (x :: l1) (y :: l2)
  | lex_next x y l1 l2 :
      elt_lt x y = false -> elt_lt y x = false ->
      lexicographic_less l1 l2 -> lexicographic_less (x :: l1) (y :: l2).

End Invariants.

(** ** Sequences of appends *)

Section Appends.

Context {T : Type} `{!Element T}.

(** [for (const Type& x : items) v.PushBack(x);] *)
Fixpoint PushBack_all (v : SimpleVector T) (items : list T)
  : outcome (SimpleVector T) :=
  match items with
  | [] => mret v
  | x :: items' => v' ← PushBack v x; PushBack_all v' items'
  end.

(** The capacities the doubling policy produces from an empty container:
    0 while nothing was appended, then the power of two that is at least
    the size and less than twice the size. *)
Definition doubled (v : SimpleVector T) : Prop :=
  (size_ v = 0 -> capacity_ v = 0)
  /\ (0 < size_ v ->
      exists k, 0 <= k /\ capacity_ v = 2 ^ k
                /\ size_ v <= capacity_ v < 2 * size_ v).

End Appends.

(** ** Containers of [int] used in the examples *)

(** [SimpleVector<int>{1, 2}], [{1, 2, 3}] and [{1, 3}], as the
    initializer-list constructor builds them. *)
Definition one_two : SimpleVector Z :=
  {| array_ := [1; 2]; size_ := 2; capacity_ := 2 |}.
Definition one_two_three : SimpleVector Z :=
  {| array_ := [1; 2; 3]; size_ := 3; capacity_ := 3 |}.
Definition one_three : SimpleVector Z :=
  {| array_ := [1; 3]; size_ := 2; capacity_ := 2 |}.

(** Two objects: an empty container at address 0 and [{1, 2}] at address 1. *)
Definition two_objects : gmap nat (SimpleVector Z) :=
  {[ 0%nat := SimpleVector_default; 1%nat := one_two ]}.

(** One object: [{1, 2}] at address 0. *)
Definition one_object : gmap nat (SimpleVector Z) :=
  {[ 0%nat := one_two ]}.

(** [{1, 2}] with room for two more elements, as [Reserve(4)] leaves it. *)
Definition roomy : SimpleVector Z :=
  {| array_ := [1; 2; -1; -1]; size_ := 2; capacity_ := 4 |}.

(** A container that reports capacity 4 over a buffer of 3 slots. *)
Definition overstated : SimpleVector Z :=
  {| array_ := [0; 0; 0]; size_ := 3; capacity_ := 4 |}.

(** [overstated] after [PopBack]: two elements in a buffer of 3 slots, with
    capacity 4 reported. *)
Definition popped : SimpleVector Z :=
  {| array_ := [0; 0; 0]; size_ := 2; capacity_ := 4 |}.

(** [SimpleVector<int> v(2); v.Resize(3);] *)
Definition resized_2_3 : outcome (SimpleVector Z) :=
  v ← SimpleVector_size 2; Resize v 3.

(** The scenario of the specification: three appends to an empty container,
    [Insert(begin() + 1, 9)], [Erase(begin())], then [Resize(5)]. *)
Definition scenario : outcome (SimpleVector Z) :=
  v ← PushBack SimpleVector_default 1;
  v ← PushBack v 2;
  v ← PushBack v 3;
  '(_, v) ← Insert v (begin_ v + 1) 9;
  '(_, v) ← Erase v (begin_ v);
  Resize v 5.

(** * Properties *)

Lemma wrap_small x : 0 <= x < size_t_modulus -> wrap x = x.
Proof. intros Hx. unfold wrap. apply Z.mod_small. exact Hx. Qed.

Lemma wrap_range x : 0 <= wrap x < size_t_modulus.
Proof. unfold wrap. apply Z.mod_pos_bound. reflexivity. Qed.

Lemma size_t_modulus_pos : 1 < size_t_modulus.
Proof. reflexivity. Qed.

Lemma distance_nat (i j : nat) :
  (i <= j)%nat -> distance (Z.of_nat i) (Z.of_nat j) = Done (j - i)%nat.
Proof.
  intros Hij. unfold distance.
  destruct (Z.leb_spec (Z.of_nat i) (Z.of_nat j)); [f_equal; lia | lia].
Qed.

Lemma distance_Done first last n :
  distance first last = Done n -> first <= last /\ n = Z.to_nat (last - first).
Proof.
  unfold distance. destruct (Z.leb_spec first last); [|discriminate].
  intros [= <-]. auto.
Qed.

Section Buffers.

Context {T : Type} `{!Element T}.
Implicit Types (buf src dst : list T) (x : T) (i j n : nat).

Lemma read_nat buf i x : buf !! i = Some x -> read buf (Z.of_nat i) = Done x.
Proof.
  intros Hx. unfold read. rewrite Nat2Z.id, Hx.
  destruct (decide _) as [|Hout]; [reflexivity|].
  apply lookup_lt_Some in Hx. unfold in_bounds in Hout. lia.
Qed.

Lemma write_nat buf i x :
  (i < length buf)%nat -> write buf (Z.of_nat i) x = Done (<[i:=x]> buf).
Proof.
  intros Hi. unfold write. rewrite Nat2Z.id.
  destruct (decide _) as [|Hout]; [reflexivity|].
  unfold in_bounds in Hout. lia.
Qed.

Lemma read_Done buf k x :
  read buf k = Done x -> 0 <= k /\ buf !! Z.to_nat k = Some x.
Proof.
  unfold read. destruct (decide _) as [[H0 _]|]; [|discriminate].
  destruct (buf !! Z.to_nat k); [|discriminate]. intros [= <-]. auto.
Qed.

Lemma write_Done buf k x buf' :
  write buf k x = Done buf' ->
  0 <= k < Z.of_nat (length buf) /\ buf' = <[Z.to_nat k := x]> buf.
Proof.
  unfold write. destruct (decide _) as [Hin|]; [|discriminate].
  intros [= <-]. auto.
Qed.

Lemma write_outside buf k x :
  Z.of_nat (length buf) <= k -> write buf k x = Fail OutOfBounds.
Proof.
  intros Hk. unfold write. destruct (decide _) as [Hin|]; [|reflexivity].
  unfold in_bounds in Hin. lia.
Qed.

Lemma read_Z buf (k : Z) x :
  0 <= k -> buf !! Z.to_nat k = Some x -> read buf k = Done x.
Proof.
  intros Hk Hx. rewrite <- (Z2Nat.id k) by lia. apply read_nat, Hx.
Qed.

Lemma write_Z buf (k : Z) x :
  0 <= k < Z.of_nat (length buf) ->
  write buf k x = Done (<[Z.to_nat k := x]> buf).
Proof.
  intros Hk. unfold write. destruct (decide _) as [|Hout]; [reflexivity|].
  unfold in_bounds in Hout. lia.
Qed.

Lemma take_insert_end (l r : list T) x n :
  n = length l -> (0 < length r)%nat ->
  take (S n) (<[n:=x]> (l ++ r)) = l ++ [x].
Proof.
  intros -> Hr. destruct r as [|y r]; [simpl in Hr; lia|].
  rewrite insert_app_r_alt, Nat.sub_diag by lia. simpl.
  rewrite (take_S_r _ _ x) by apply list_lookup_middle, eq_refl.
  rewrite take_app_length. reflexivity.
Qed.

Lemma insert_middle (l r : list T) h x n :
  n = length l -> <[n:=x]> (l ++ h :: r) = l ++ x :: r.
Proof.
  intros ->. rewrite insert_app_r_alt, Nat.sub_diag by lia. reflexivity.
Qed.

Lemma length_ArrayPtr (k : Z) : length (ArrayPtr k) = Z.to_nat k.
Proof. unfold ArrayPtr. rewrite length_fmap, length_seq. reflexivity. Qed.

(** *** Closed forms of the loops *)

Lemma std_fill_spec n buf i x :
  (i + n <= length buf)%nat ->
  std_fill n buf (Z.of_nat i) x
  = Done (take i buf ++ replicate n x ++ drop (i + n) buf).
Proof.
  revert buf i. induction n as [|n IH]; intros buf i Hlen; simpl.
  - rewrite Nat.add_0_r, take_drop. reflexivity.
  - rewrite write_nat by lia. simpl.
    replace (Z.of_nat i + 1) with (Z.of_nat (S i)) by lia.
    rewrite IH by (rewrite length_insert; lia).
    rewrite (take_S_r _ i x) by (apply list_lookup_insert_eq; lia).
    rewrite take_insert_ge by lia.
    rewrite drop_insert_lt by lia.
    rewrite <- app_assoc. simpl.
    replace (S (i + n)) with (i + S n)%nat by lia. reflexivity.
Qed.

Lemma for_each_reset_fill n buf (k : Z) :
  for_each_reset n buf k = std_fill n buf k elt_default.
Proof.
  revert buf k. induction n as [|n IH]; intros buf k; simpl; [reflexivity|].
  destruct (write buf k elt_default); simpl; [apply IH | reflexivity].
Qed.

Lemma std_copy_spec n src i dst j :
  (i + n <= length src)%nat -> (j + n <= length dst)%nat ->
  std_copy n src (Z.of_nat i) dst (Z.of_nat j)
  = Done (take j dst ++ take n (drop i src) ++ drop (j + n) dst).
Proof.
  revert i dst j. induction n as [|n IH]; intros i dst j Hsrc Hdst; simpl.
  - rewrite Nat.add_0_r, take_drop. reflexivity.
  - destruct (lookup_lt_is_Some_2 src i) as [x Hx]; [lia|].
    rewrite (read_nat _ _ _ Hx). simpl.
    rewrite write_nat by lia. simpl.
    replace (Z.of_nat i + 1) with (Z.of_nat (S i)) by lia.
    replace (Z.of_nat j + 1) with (Z.of_nat (S j)) by lia.
    rewrite IH by (rewrite ?length_insert; lia).
    rewrite (take_S_r _ j x) by (apply list_lookup_insert_eq; lia).
    rewrite take_insert_ge by lia.
    rewrite drop_insert_lt by lia.
    rewrite (drop_S _ _ _ Hx). simpl.
    rewrite <- app_assoc. simpl.
    replace (S (j + n)) with (j + S n)%nat by lia. reflexivity.
Qed.

(** Moving out of a buffer fills the destination as copying does, and
    leaves every moved slot of the source in its moved-from state. *)
Lemma std_move_spec n src i dst j :
  (i + n <= length src)%nat -> (j + n <= length dst)%nat ->
  std_move n src (Z.of_nat i) dst (Z.of_nat j)
  = Done (take i src ++ (elt_moved <$> take n (drop i src))
            ++ drop (i + n) src,
          take j dst ++ take n (drop i src) ++ drop (j + n) dst).
Proof.
  revert src i dst j.
  induction n as [|n IH]; intros src i dst j Hsrc Hdst; simpl.
  - rewrite !Nat.add_0_r, !take_drop. reflexivity.
  - destruct (lookup_lt_is_Some_2 src i) as [x Hx]; [lia|].
    rewrite (read_nat _ _ _ Hx). simpl.
    rewrite !write_nat by lia. simpl.
    replace (Z.of_nat i + 1) with (Z.of_nat (S i)) by lia.
    replace (Z.of_nat j + 1) with (Z.of_nat (S j)) by lia.
    rewrite IH by (rewrite length_insert; lia).
    rewrite (take_S_r _ j x) by (apply list_lookup_insert_eq; lia).
    rewrite (take_S_r _ i (elt_moved x))
      by (apply list_lookup_insert_eq; lia).
    rewrite !take_insert_ge by lia.
    rewrite !drop_insert_lt by lia.
    rewrite (drop_S _ _ _ Hx). simpl.
    rewrite <- !app_assoc. simpl.
    replace (S (i + n)) with (i + S n)%nat by lia.
    replace (S (j + n)) with (j + S n)%nat by lia. reflexivity.
Qed.

(** Shifting [n] elements one slot towards the front, as [Erase] does:
    the slot after the shifted block is left in some state [h]. *)
Lemma std_move_within_spec n buf i :
  (S i + n <= length buf)%nat ->
  exists h,
    std_move_within n buf (Z.of_nat (S i)) (Z.of_nat i)
    = Done (take i buf ++ take n (drop (S i) buf)
              ++ h :: drop (S i + n) buf).
Proof.
  revert buf i. induction n as [|n IH]; intros buf i Hlen; simpl.
  - destruct (lookup_lt_is_Some_2 buf i) as [h Hh]; [lia|].
    exists h. rewrite Nat.add_0_r. simpl.
    rewrite (take_drop_middle _ _ _ Hh). reflexivity.
  - destruct (lookup_lt_is_Some_2 buf (S i)) as [x Hx]; [lia|].
    rewrite (read_nat _ _ _ Hx). simpl.
    rewrite write_nat by lia. simpl.
    rewrite write_nat by (rewrite length_insert; lia). simpl.
    replace (Z.of_nat (S i) + 1) with (Z.of_nat (S (S i))) by lia.
    replace (Z.of_nat i + 1) with (Z.of_nat (S i)) by lia.
    destruct (IH (<[S i:=elt_moved x]> (<[i:=x]> buf)) (S i)) as [h ->];
      [rewrite !length_insert; lia|].
    exists h. f_equal.
    rewrite take_insert_ge by lia.
    rewrite (take_S_r _ i x) by (apply list_lookup_insert_eq; lia).
    rewrite take_insert_ge by lia.
    rewrite !drop_insert_lt by lia.
    rewrite (drop_S _ _ _ Hx). simpl.
    rewrite <- !app_assoc. simpl.
    replace (S (i + S n)) with (S (S (i + n))) by lia. reflexivity.
Qed.

(** Shifting the [n] elements that end before slot [last] one slot towards
    the back, as [Insert] does: the slot the block started at is left in
    some state [h]. *)
Lemma std_move_backward_spec n buf last :
  (n <= last)%nat -> (S last <= length buf)%nat ->
  exists h,
    std_move_backward n buf (Z.of_nat last) (Z.of_nat (S last))
    = Done (take (last - n) buf
              ++ h :: take n (drop (last - n) buf) ++ drop (S last) buf).
Proof.
  revert buf last. induction n as [|n IH]; intros buf last Hn Hlen; simpl.
  - destruct (lookup_lt_is_Some_2 buf last) as [h Hh]; [lia|].
    exists h. rewrite Nat.sub_0_r.
    rewrite (take_drop_middle _ _ _ Hh). reflexivity.
  - destruct last as [|p]; [lia|].
    replace (Z.of_nat (S p) - 1) with (Z.of_nat p) by lia.
    replace (Z.of_nat (S (S p)) - 1) with (Z.of_nat (S p)) by lia.
    destruct (lookup_lt_is_Some_2 buf p) as [x Hx]; [lia|].
    rewrite (read_nat _ _ _ Hx). simpl.
    rewrite write_nat by lia. simpl.
    rewrite write_nat by (rewrite length_insert; lia). simpl.
    destruct (IH (<[p:=elt_moved x]> (<[S p:=x]> buf)) p) as [h ->];
      [lia | rewrite !length_insert; lia|].
    exists h. f_equal.
    rewrite !take_insert_ge by lia.
    assert (take n (drop (p - n) (<[p:=elt_moved x]> (<[S p:=x]> buf)))
            = take n (drop (p - n) buf)) as ->.
    { rewrite !(take_drop_commute _ n (p - n)). f_equal.
      rewrite !take_insert_ge by lia. reflexivity. }
    rewrite drop_insert_lt by lia.
    rewrite (drop_S (<[S p:=x]> buf) x (S p))
      by (apply list_lookup_insert_eq; lia).
    rewrite drop_insert_lt by lia.
    replace (S p - S n)%nat with (p - n)%nat by lia.
    rewrite (take_S_r (drop (p - n) buf) n x)
      by (rewrite lookup_drop; replace (p - n + n)%nat with p by lia; done).
    rewrite <- !app_assoc. reflexivity.
Qed.

End Buffers.

(** Reduce the binds whose first computation has returned. *)
Ltac run :=
  cbn [mbind outcome_bind mret outcome_ret array_ size_ capacity_
       ArrayPtr_swap ArrayPtr_move fst snd].

Section Operations.

Context {T : Type} `{!Element T}.
Implicit Types (v : SimpleVector T) (x : T).

(** Lengths of buffers built from pieces. *)
Ltac len :=
  repeat (progress rewrite ?length_app, ?length_cons, ?length_insert,
            ?length_fmap, ?length_take, ?length_drop, ?length_replicate,
            ?length_ArrayPtr);
  cbn [length]; lia.

Lemma distance_logical v :
  0 <= size_ v ->
  distance (begin_ v) (end_ v) = Done (Z.to_nat (size_ v)).
Proof.
  intros Hs. unfold distance, end_, begin_.
  destruct (Z.leb_spec 0 (0 + size_ v)); [|lia]. f_equal. lia.
Qed.

Lemma length_logical v :
  0 <= size_ v <= allocated v -> length (logical v) = Z.to_nat (size_ v).
Proof.
  unfold allocated, logical. intros Hs. rewrite length_take. lia.
Qed.

(** Moving the whole logical range to the front of a new buffer of [c]
    slots. *)
Lemma std_move_all v (c : Z) :
  0 <= size_ v <= allocated v -> size_ v <= c ->
  exists old,
    std_move (Z.to_nat (size_ v)) (array_ v) (begin_ v) (ArrayPtr c) 0
    = Done (old, logical v ++ drop (Z.to_nat (size_ v)) (ArrayPtr c)).
Proof.
  unfold allocated. intros Hs Hc. eexists.
  pose proof (std_move_spec (Z.to_nat (size_ v)) (array_ v) 0
                (ArrayPtr c) 0) as Hmove.
  change (Z.of_nat 0) with 0 in Hmove. unfold begin_.
  rewrite Hmove; [| lia | rewrite length_ArrayPtr; lia].
  rewrite drop_0. reflexivity.
Qed.

(** C5: one [PushBack] on a container whose size equals its capacity [C]
    (with [2 * C] representable in [size_t]) leaves it with capacity
    exactly [max(1, 2 * C)], that many allocated slots, and the previous
    elements in their order followed by the new one. *)
Theorem PushBack_growth_law v x :
  0 <= size_ v <= allocated v -> size_ v = capacity_ v -> can_double v ->
  exists v',
    PushBack v x = Done v'
    /\ GetCapacity v' = Z.max 1 (2 * capacity_ v)
    /\ allocated v' = GetCapacity v'
    /\ GetSize v' = size_ v + 1
    /\ logical v' = logical v ++ [x].
Proof.
  intros Hs Heq Hdbl. unfold can_double in Hdbl. unfold PushBack.
  pose proof size_t_modulus_pos as Hmod.
  rewrite Heq, Z.eqb_refl. rewrite <- Heq.
  set (c := if size_ v =? 0 then 1 else wrap (size_ v * 2)).
  assert (Hc : c = Z.max 1 (2 * size_ v)).
  { subst c. destruct (Z.eqb_spec (size_ v) 0) as [->|]; [reflexivity|].
    rewrite wrap_small by lia. lia. }
  clearbody c.
  rewrite distance_logical by lia. run.
  destruct (std_move_all v c) as [old ->]; [lia..|]. run.
  pose proof (length_logical v Hs) as Hlen.
  rewrite write_Z
    by (rewrite length_app, length_drop, length_ArrayPtr; lia).
  run. eexists. split; [reflexivity|].
  unfold GetCapacity, GetSize, allocated. run.
  repeat split.
  - lia.
  - rewrite length_insert, length_app, length_drop, length_ArrayPtr. lia.
  - apply wrap_small. lia.
  - unfold logical at 1. run. rewrite wrap_small by lia.
    replace (Z.to_nat (size_ v + 1)) with (S (Z.to_nat (size_ v))) by lia.
    apply take_insert_end; [symmetry; exact Hlen|].
    rewrite length_drop, length_ArrayPtr. lia.
Qed.

(** What [Insert] does to a container that satisfies the data model. *)
Lemma Insert_spec v (pos : Z) x :
  wf v -> can_double v -> 0 <= pos <= size_ v ->
  exists v',
    Insert v pos x = Done (pos, v')
    /\ wf v'
    /\ size_ v' = size_ v + 1
    /\ logical v'
       = take (Z.to_nat pos) (logical v) ++ x :: drop (Z.to_nat pos) (logical v).
Proof.
  destruct v as [old sz cap]. unfold wf, can_double, allocated, logical.
  cbn [array_ size_ capacity_]. intros [Hsz Hcap] Hdbl Hpos.
  pose proof size_t_modulus_pos as Hmod.
  assert (Hs : sz = Z.of_nat (Z.to_nat sz)) by lia.
  assert (Hp : pos = Z.of_nat (Z.to_nat pos)) by lia.
  set (s := Z.to_nat sz) in *. set (p := Z.to_nat pos) in *.
  clearbody s p. subst sz pos.
  unfold Insert, begin_, end_. cbn [array_ size_ capacity_].
  rewrite Z.sub_0_r, (wrap_small (Z.of_nat p)) by lia.
  rewrite !Z.add_0_l.
  rewrite (wrap_small (Z.of_nat s + 1)) by lia.
  replace (Z.of_nat s + 1) with (Z.of_nat (S s)) by lia.
  replace (Z.of_nat p + 1) with (Z.of_nat (S p)) by lia.
  replace (Z.of_nat (S s) - 1) with (Z.of_nat s) by lia.
  change 0 with (Z.of_nat 0).
  rewrite !distance_nat by lia.
  destruct (Z.eqb_spec (Z.of_nat s) cap) as [Hfull|Hroom].
  - set (c := if cap =? Z.of_nat 0 then 1 else wrap (cap * 2)).
    assert (Hc : c = Z.max 1 (2 * cap)).
    { subst c. destruct (Z.eqb_spec cap (Z.of_nat 0)) as [->|Hne];
        [reflexivity|]. rewrite wrap_small by lia. lia. }
    clearbody c. run. rewrite Nat.sub_0_r.
    rewrite std_move_spec by len. run.
    rewrite write_nat by len. run.
    rewrite std_move_spec by len. run.
    eexists. split; [reflexivity|]. run.
    rewrite !take_0, !drop_0, !Nat.add_0_l, !app_nil_l.
    rewrite (take_insert_end (take p old)) by len.
    rewrite (drop_app_length' (elt_moved <$> take p old)) by len.
    rewrite Nat2Z.id, take_take, Nat.min_l by lia.
    replace (drop p (take s old)) with (take (s - p) (drop p old))
      by (rewrite take_drop_commute; do 2 f_equal; lia).
    split; [split; [lia | len] |]. split; [reflexivity|].
    rewrite <- !app_assoc, !app_assoc. rewrite take_app_length' by len.
    rewrite <- !app_assoc. reflexivity.
  - run.
    destruct (std_move_backward_spec (s - p) old s) as [h ->]; [lia..|].
    run. rewrite write_nat by len. run.
    eexists. split; [reflexivity|]. run.
    replace (s - (s - p))%nat with p by lia.
    rewrite (insert_middle (take p old)) by len.
    rewrite Nat2Z.id, take_take, Nat.min_l by lia.
    replace (drop p (take s old)) with (take (s - p) (drop p old))
      by (rewrite take_drop_commute; do 2 f_equal; lia).
    split; [split; [lia | len] |]. split; [reflexivity|].
    change (take p old ++ x :: take (s - p) (drop p old) ++ drop (S s) old)
      with (take p old ++ (x :: take (s - p) (drop p old)) ++ drop (S s) old).
    rewrite app_assoc. apply take_app_length'. len.
Qed.

(** What [Erase] does at a position that holds an element. *)
Lemma Erase_spec v (pos : Z) :
  0 <= size_ v <= allocated v -> size_ v < size_t_modulus ->
  0 <= pos < size_ v ->
  exists v',
    Erase v pos = Done (pos, v')
    /\ size_ v' = size_ v - 1
    /\ capacity_ v' = capacity_ v
    /\ allocated v' = allocated v
    /\ logical v'
       = take (Z.to_nat pos) (logical v)
           ++ drop (S (Z.to_nat pos)) (logical v).
Proof.
  destruct v as [old sz cap]. unfold allocated, logical.
  cbn [array_ size_ capacity_]. intros Hsz Hmax Hpos.
  assert (Hs : sz = Z.of_nat (Z.to_nat sz)) by lia.
  assert (Hp : pos = Z.of_nat (Z.to_nat pos)) by lia.
  set (s := Z.to_nat sz) in *. set (p := Z.to_nat pos) in *.
  clearbody s p. subst sz pos.
  unfold Erase, begin_, end_, decr. cbn [array_ size_ capacity_].
  rewrite Z.sub_0_r, (wrap_small (Z.of_nat p)) by lia.
  rewrite !Z.add_0_l, (wrap_small (Z.of_nat s - 1)) by lia.
  replace (Z.of_nat p + 1) with (Z.of_nat (S p)) by lia.
  rewrite distance_nat by lia. run.
  destruct (std_move_within_spec (s - S p) old p) as [h ->]; [lia|].
  run. eexists. split; [reflexivity|]. run.
  split; [reflexivity|]. split; [reflexivity|]. split; [f_equal; len|].
  rewrite take_take, Nat.min_l by lia.
  replace (drop (S p) (take s old)) with (take (s - S p) (drop (S p) old))
    by (rewrite take_drop_commute; do 2 f_equal; lia).
  rewrite app_assoc. apply take_app_length'. len.
Qed.

(** What the copy constructor builds. *)
Lemma SimpleVector_copy_spec v :
  consistent v ->
  exists v',
    SimpleVector_copy v = Done v'
    /\ size_ v' = size_ v
    /\ capacity_ v' = capacity_ v
    /\ allocated v' = capacity_ v
    /\ logical v' = logical v.
Proof.
  destruct v as [old sz cap]. unfold consistent, allocated, logical.
  cbn [array_ size_ capacity_]. intros [Hsz Hcap].
  unfold SimpleVector_copy, GetSize, GetCapacity.
  cbn [array_ size_ capacity_].
  rewrite distance_logical by (cbn [size_]; lia). run. unfold begin_.
  pose proof (std_copy_spec (Z.to_nat sz) old 0 (ArrayPtr cap) 0) as Hcopy.
  change (Z.of_nat 0) with 0 in Hcopy. rewrite Hcopy by len. run.
  eexists. split; [reflexivity|]. run.
  rewrite take_0, drop_0, app_nil_l.
  split; [reflexivity|]. split; [reflexivity|]. split; [len|].
  apply take_app_length'. len.
Qed.

(** C7: [At(i)] throws [std::out_of_range] exactly when [i >= GetSize()];
    for [i < GetSize()] it returns the element at position [i] of the
    logical sequence and leaves the container as it was. *)
Theorem At_checked v (i : Z) :
  0 <= size_ v <= allocated v -> 0 <= i ->
  (At v i = Fail OutOfRangeError <-> GetSize v <= i)
  /\ (i < GetSize v ->
      exists x, logical v !! Z.to_nat i = Some x /\ At v i = Done (x, v)).
Proof.
  unfold allocated, GetSize, At, logical. intros Hsz Hi.
  destruct (Z.leb_spec (size_ v) i) as [Hge|Hlt].
  - split; [tauto | lia].
  - destruct (lookup_lt_is_Some_2 (array_ v) (Z.to_nat i)) as [x Hx]; [lia|].
    rewrite (read_Z _ _ _ Hi Hx). run. split.
    + split; [discriminate | lia].
    + intros _. exists x. rewrite lookup_take_lt by lia. auto.
Qed.

(** C6: move construction [SimpleVector b(std::move(a))] puts at [b] a
    container with exactly the buffer, size and capacity [a] had, and
    leaves [a] with size 0, capacity 0 and no storage. *)
Theorem move_construct_steals (σ : gmap nat (SimpleVector T)) (a b : nat) va :
  a ≠ b -> σ !! a = Some va ->
  exists σ' va',
    construct_move b a σ = Done σ'
    /\ σ' !! b = Some va
    /\ σ' !! a = Some va'
    /\ GetSize va' = 0 /\ GetCapacity va' = 0 /\ array_ va' = [].
Proof.
  intros Hab Ha. unfold construct_move, deref. rewrite Ha. run.
  eexists _, _. split; [reflexivity|].
  rewrite lookup_insert_eq, lookup_insert_ne, lookup_insert_eq by congruence.
  destruct va. repeat split; reflexivity.
Qed.

(** C10: move-assigning a container to itself, [a = std::move(a)], leaves
    it with the logical sequence and the size it had. *)
Theorem self_move_assign_preserves (σ : gmap nat (SimpleVector T)) (a : nat) va :
  σ !! a = Some va -> consistent va ->
  exists σ' va',
    assign_move a a σ = Done σ'
    /\ σ' !! a = Some va'
    /\ logical va' = logical va
    /\ GetSize va' = GetSize va.
Proof.
  intros Ha Hva. unfold assign_move, deref. rewrite Ha. run.
  destruct (SimpleVector_copy_spec va Hva) as (tmp & -> & Hsz & _ & _ & Hlog).
  run. unfold swap. eexists _, _. split; [reflexivity|].
  rewrite lookup_insert_eq. split; [reflexivity|].
  unfold logical, GetSize in *. run. auto.
Qed.

(** *** The relational operators *)

Lemma equal_loop_spec n (b1 : list T) (i : nat) (b2 : list T) (j : nat) :
  (i + n <= length b1)%nat -> (j + n <= length b2)%nat ->
  exists r,
    equal_loop n b1 (Z.of_nat i) b2 (Z.of_nat j) = Done r
    /\ (r = true <->
        elementwise_equal (take n (drop i b1)) (take n (drop j b2))).
Proof.
  unfold elementwise_equal. revert i j.
  induction n as [|n IH]; intros i j H1 H2; simpl.
  - exists true. split; [reflexivity|]. split; [constructor | reflexivity].
  - destruct (lookup_lt_is_Some_2 b1 i) as [x Hx]; [lia|].
    destruct (lookup_lt_is_Some_2 b2 j) as [y Hy]; [lia|].
    rewrite (read_nat _ _ _ Hx), (read_nat _ _ _ Hy). run.
    rewrite (drop_S _ _ _ Hx), (drop_S _ _ _ Hy). simpl.
    replace (Z.of_nat i + 1) with (Z.of_nat (S i)) by lia.
    replace (Z.of_nat j + 1) with (Z.of_nat (S j)) by lia.
    destruct (elt_eq x y) eqn:Exy.
    + destruct (IH (S i) (S j)) as (r & -> & Hr); [lia..|].
      exists r. split; [reflexivity|]. rewrite Hr. split.
      * intros Htl. constructor; assumption.
      * intros Hall. inversion Hall; assumption.
    + exists false. split; [reflexivity|]. split; [discriminate|].
      intros Hall. inversion Hall; congruence.
Qed.

Lemma lexicographical_compare_spec n1 n2
    (b1 : list T) (i : nat) (b2 : list T) (j : nat) :
  (i + n1 <= length b1)%nat -> (j + n2 <= length b2)%nat ->
  exists r,
    std_lexicographical_compare n1 n2 b1 (Z.of_nat i) b2 (Z.of_nat j)
    = Done r
    /\ (r = true <->
        lexicographic_less (take n1 (drop i b1)) (take n2 (drop j b2))).
Proof.
  revert n2 i j. induction n1 as [|n1 IH]; intros [|n2] i j H1 H2; simpl.
  - exists false. split; [reflexivity|]. split; [discriminate|].
    intros Hlt. inversion Hlt.
  - destruct (lookup_lt_is_Some_2 b2 j) as [y Hy]; [lia|].
    rewrite (drop_S _ _ _ Hy). simpl.
    exists true. split; [reflexivity|]. split; [constructor | reflexivity].
  - exists false. split; [reflexivity|]. split; [discriminate|].
    intros Hlt. inversion Hlt.
  - destruct (lookup_lt_is_Some_2 b1 i) as [x Hx]; [lia|].
    destruct (lookup_lt_is_Some_2 b2 j) as [y Hy]; [lia|].
    rewrite (read_nat _ _ _ Hx), (read_nat _ _ _ Hy). run.
    rewrite (drop_S _ _ _ Hx), (drop_S _ _ _ Hy). simpl.
    replace (Z.of_nat i + 1) with (Z.of_nat (S i)) by lia.
    replace (Z.of_nat j + 1) with (Z.of_nat (S j)) by lia.
    destruct (elt_lt x y) eqn:Exy.
    { exists true. split; [reflexivity|].
      split; [intros _; apply lex_first, Exy | reflexivity]. }
    destruct (elt_lt y x) eqn:Eyx.
    { exists false. split; [reflexivity|]. split; [discriminate|].
      intros Hlt. inversion Hlt; congruence. }
    destruct (IH n2 (S i) (S j)) as (r & -> & Hr); [lia..|].
    exists r. split; [reflexivity|]. rewrite Hr. split.
    + intros Htl. apply lex_next; assumption.
    + intros Hlt. inversion Hlt; [congruence | assumption].
Qed.

(** A strict prefix is less, whatever [operator<] of the elements is. *)
Lemma strict_prefix_less (l : list T) y r :
  lexicographic_less l (l ++ y :: r).
Proof.
  induction l as [|x l IH]; simpl; [constructor|].
  destruct (elt_lt x x) eqn:Exx; [apply lex_first, Exx|].
  apply lex_next; assumption.
Qed.

Lemma op_eq_spec (a b : SimpleVector T) :
  0 <= size_ a <= allocated a -> 0 <= size_ b <= allocated b ->
  exists r,
    op_eq a b = Done r
    /\ (r = true <-> elementwise_equal (logical a) (logical b)).
Proof.
  intros Ha Hb. unfold op_eq, std_equal.
  rewrite !distance_logical by lia. run.
  pose proof (length_logical a Ha) as Hla.
  pose proof (length_logical b Hb) as Hlb.
  unfold allocated in *. destruct (decide _) as [Hn|Hn].
  - pose proof (equal_loop_spec (Z.to_nat (size_ a))
                  (array_ a) 0 (array_ b) 0) as Hloop.
    change (Z.of_nat 0) with 0 in Hloop. rewrite !drop_0 in Hloop.
    unfold logical. rewrite <- Hn. apply Hloop; lia.
  - exists false. split; [reflexivity|]. split; [discriminate|].
    intros Hall. apply Forall2_length in Hall. congruence.
Qed.

Lemma op_lt_spec (a b : SimpleVector T) :
  0 <= size_ a <= allocated a -> 0 <= size_ b <= allocated b ->
  exists r,
    op_lt a b = Done r
    /\ (r = true <-> lexicographic_less (logical a) (logical b)).
Proof.
  intros Ha Hb. unfold op_lt.
  rewrite !distance_logical by lia. run. unfold allocated in *.
  pose proof (lexicographical_compare_spec
                (Z.to_nat (size_ a)) (Z.to_nat (size_ b))
                (array_ a) 0 (array_ b) 0) as Hloop.
  change (Z.of_nat 0) with 0 in Hloop. rewrite !drop_0 in Hloop.
  apply Hloop; lia.
Qed.

(** C9: on two containers, [==] decides element-wise equality of the
    logical sequences, [<] decides the standard lexicographic order on
    them (a strict prefix is less), [>] is [<] with the operands
    exchanged, [!=] is the negation of [==], and [<=], [>=] hold exactly
    when [<], respectively [>], or [==] holds. *)
Theorem relational_operators (a b : SimpleVector T) :
  0 <= size_ a <= allocated a -> 0 <= size_ b <= allocated b ->
  exists eq lt gt : bool,
    op_eq a b = Done eq /\ op_ne a b = Done (negb eq)
    /\ op_lt a b = Done lt /\ op_le a b = Done (lt || eq)
    /\ op_gt a b = Done gt /\ op_ge a b = Done (gt || eq)
    /\ (eq = true <-> elementwise_equal (logical a) (logical b))
    /\ (lt = true <-> lexicographic_less (logical a) (logical b))
    /\ (gt = true <-> lexicographic_less (logical b) (logical a))
    /\ (forall y r, logical b = logical a ++ y :: r -> lt = true).
Proof.
  intros Ha Hb.
  destruct (op_eq_spec a b Ha Hb) as (eq & Heq & Heq_iff).
  destruct (op_lt_spec a b Ha Hb) as (lt & Hlt & Hlt_iff).
  destruct (op_lt_spec b a Hb Ha) as (gt & Hgt & Hgt_iff).
  exists eq, lt, gt. unfold op_ne, op_le, op_ge, op_gt.
  rewrite Heq, Hlt, Hgt. run.
  repeat split; try tauto; try (by destruct lt); try (by destruct gt).
  intros y r Hprefix. apply Hlt_iff. rewrite Hprefix.
  apply strict_prefix_less.
Qed.

(** *** Growing by [Resize] *)

Lemma std_fill_Z n (buf : list T) (k : Z) x :
  0 <= k -> k + Z.of_nat n <= Z.of_nat (length buf) ->
  std_fill n buf k x
  = Done (take (Z.to_nat k) buf ++ replicate n x
            ++ drop (Z.to_nat k + n) buf).
Proof.
  intros Hk Hlen. rewrite <- (Z2Nat.id k) at 1 by lia.
  apply std_fill_spec. lia.
Qed.

(** The first branch of [Resize]: the new buffer has [new_size] slots,
    whatever capacity is recorded. *)
Lemma Resize_grow_spec v (new_size : Z) :
  consistent v -> capacity_ v < new_size ->
  exists v',
    Resize v new_size = Done v'
    /\ GetSize v' = new_size
    /\ GetCapacity v' = Z.max new_size (wrap (capacity_ v * 2))
    /\ allocated v' = new_size
    /\ logical v'
       = logical v ++ replicate (Z.to_nat (new_size - size_ v)) elt_default.
Proof.
  intros [Hsz Hcap] Hnew. unfold Resize.
  destruct (Z.ltb_spec (capacity_ v) new_size) as [_|]; [|lia].
  rewrite distance_logical by lia. run.
  destruct (std_move_all v new_size) as [old ->]; [lia..|]. run.
  pose proof (length_logical v Hsz) as Hlen.
  unfold distance. rewrite !Z.add_0_l.
  destruct (Z.leb_spec (size_ v) new_size) as [_|]; [|lia]. run.
  rewrite for_each_reset_fill, std_fill_Z by len. run.
  eexists. split; [reflexivity|].
  unfold GetSize, GetCapacity, allocated. run.
  rewrite take_app_length' by (symmetry; exact Hlen).
  rewrite (drop_ge (logical v ++ _)) by len.
  rewrite app_nil_r.
  split; [reflexivity|]. split; [reflexivity|]. split; [len|].
  unfold logical at 1. run. apply take_ge. len.
Qed.

(** X6: move assignment between two different objects gives the target a
    copy of the source (same sequence, size and capacity) and leaves the
    source as it was. *)
Lemma assign_move_copies (σ : gmap nat (SimpleVector T)) (this rhs : nat)
    self other :
  this ≠ rhs -> σ !! this = Some self -> σ !! rhs = Some other ->
  consistent other ->
  exists σ' copy,
    assign_move this rhs σ = Done σ'
    /\ σ' !! rhs = Some other
    /\ σ' !! this = Some copy
    /\ logical copy = logical other
    /\ GetSize copy = GetSize other
    /\ GetCapacity copy = GetCapacity other.
Proof.
  intros Hne Hself Hother Hcons. unfold assign_move, deref.
  rewrite Hother. run.
  destruct (SimpleVector_copy_spec other Hcons)
    as (tmp & -> & Hsz & Hcap & _ & Hlog).
  run. rewrite Hself. run. unfold swap. eexists _, _.
  split; [reflexivity|].
  rewrite lookup_insert_ne, lookup_insert_eq by congruence.
  split; [exact Hother|]. split; [reflexivity|].
  unfold logical, GetSize, GetCapacity in *. run. auto.
Qed.

End Operations.

(** ** What every reachable container satisfies *)

(** From a sequence of steps that returned, the step that ran first
    returned. *)
Tactic Notation "first_step" hyp(H) "as" simple_intropattern(a) ident(E) :=
  lazymatch type of H with
  | mbind _ ?m = Done _ =>
      destruct m as [a|] eqn:E;
      [cbn [mbind outcome_bind] in H | discriminate H]
  end.

(** Reduce the binds of a hypothesis. *)
Ltac run_in H :=
  cbn [mbind outcome_bind mret outcome_ret array_ size_ capacity_
       ArrayPtr_swap ArrayPtr_move fst snd] in H.

(** Reduce the projections of explicit records, everywhere. *)
Ltac fields :=
  cbn [array_ size_ capacity_ ArrayPtr_swap ArrayPtr_move fst snd] in *.

Section Reachable.

Context {T : Type} `{!Element T}.
Implicit Types (buf src dst : list T) (u v : SimpleVector T) (x : T).

Lemma std_fill_Done n buf (k : Z) x buf' :
  std_fill n buf k x = Done buf' ->
  length buf' = length buf
  /\ ((0 < n)%nat -> 0 <= k /\ k + Z.of_nat n <= Z.of_nat (length buf)).
Proof.
  revert buf k. induction n as [|n IH]; intros buf k H; simpl in H.
  - injection H as <-. split; [reflexivity | lia].
  - first_step H as b1 Hw. apply write_Done in Hw as [Hk ->].
    apply IH in H as [Hlen Hrange]. rewrite length_insert in *.
    split; [exact Hlen|]. intros _. destruct n; lia.
Qed.

Lemma std_copy_Done n src (i : Z) dst (j : Z) dst' :
  std_copy n src i dst j = Done dst' -> length dst' = length dst.
Proof.
  revert i dst j. induction n as [|n IH]; intros i dst j H; simpl in H.
  - injection H as <-. reflexivity.
  - first_step H as y Hr. first_step H as d1 Hw.
    apply write_Done in Hw as [_ ->].
    apply IH in H. rewrite length_insert in H. exact H.
Qed.

Lemma std_move_Done n src (i : Z) dst (j : Z) src' dst' :
  std_move n src i dst j = Done (src', dst') ->
  length dst' = length dst
  /\ ((0 < n)%nat -> 0 <= j /\ j + Z.of_nat n <= Z.of_nat (length dst)).
Proof.
  revert src i dst j. induction n as [|n IH]; intros src i dst j H; simpl in H.
  - injection H as <- <-. split; [reflexivity | lia].
  - first_step H as y Hr. first_step H as d1 Hw. first_step H as s1 Hw'.
    apply write_Done in Hw as [Hj ->].
    apply IH in H as [Hlen Hrange]. rewrite length_insert in *.
    split; [exact Hlen|]. intros _. destruct n; lia.
Qed.

Lemma std_move_within_Done n buf (i j : Z) buf' :
  std_move_within n buf i j = Done buf' -> length buf' = length buf.
Proof.
  revert buf i j. induction n as [|n IH]; intros buf i j H; simpl in H.
  - injection H as <-. reflexivity.
  - first_step H as y Hr. first_step H as b1 Hw. first_step H as b2 Hw'.
    apply write_Done in Hw as [_ ->]. apply write_Done in Hw' as [_ ->].
    apply IH in H. rewrite !length_insert in H. exact H.
Qed.

Lemma std_move_backward_Done n buf (last d_last : Z) buf' :
  std_move_backward n buf last d_last = Done buf' ->
  length buf' = length buf
  /\ ((0 < n)%nat -> d_last <= Z.of_nat (length buf)).
Proof.
  revert buf last d_last.
  induction n as [|n IH]; intros buf last d_last H; simpl in H.
  - injection H as <-. split; [reflexivity | lia].
  - first_step H as y Hr. first_step H as b1 Hw. first_step H as b2 Hw'.
    apply write_Done in Hw as [Hd ->]. apply write_Done in Hw' as [_ ->].
    apply IH in H as [Hlen _]. rewrite !length_insert in Hlen.
    split; [exact Hlen | lia].
Qed.

Lemma wrap_le (k : Z) : 0 <= k -> 0 <= wrap k <= k.
Proof.
  intros Hk. split; [apply wrap_range|].
  unfold wrap. apply Z.mod_le; [exact Hk | reflexivity].
Qed.

Lemma PushBack_consistent u x v :
  consistent u -> PushBack u x = Done v -> consistent v.
Proof.
  unfold consistent, allocated. intros [Hsz Hcap] H. unfold PushBack in H.
  first_step H as v1 Hgrow. first_step H as buf Hw.
  apply write_Done in Hw as [Hw ->].
  injection H as <-. run. rewrite length_insert.
  pose proof (wrap_le (size_ v1 + 1)) as Hwrap.
  destruct (size_ u =? capacity_ u).
  - first_step Hgrow as n Hn. first_step Hgrow as [old new] Hmove.
    injection Hgrow as <-.
    apply std_move_Done in Hmove as [Hlen _]. revert Hw Hwrap. run.
    rewrite Hlen, length_ArrayPtr.
    pose proof (wrap_range (capacity_ u * 2)).
    destruct (capacity_ u =? 0); lia.
  - injection Hgrow as <-. lia.
Qed.

Lemma SimpleVector_size_value_consistent (n : Z) x v :
  is_size_t n -> SimpleVector_size_value n x = Done v -> consistent v.
Proof.
  unfold consistent, allocated, is_size_t. intros Hn H.
  unfold SimpleVector_size_value in H. run.
  first_step H as k Hk. first_step H as buf Hfill. injection H as <-. fields.
  apply std_fill_Done in Hfill as [-> _]. rewrite length_ArrayPtr. lia.
Qed.

Lemma SimpleVector_init_consistent (l : list T) v :
  SimpleVector_init l = Done v -> consistent v.
Proof.
  unfold consistent, allocated. intros H. unfold SimpleVector_init in H. run.
  first_step H as buf Hcopy. injection H as <-. fields.
  apply std_copy_Done in Hcopy as ->. rewrite length_ArrayPtr. lia.
Qed.

Lemma SimpleVector_copy_consistent u v :
  consistent u -> SimpleVector_copy u = Done v -> consistent v.
Proof.
  unfold consistent, allocated. intros [Hsz Hcap] H.
  unfold SimpleVector_copy, GetSize, GetCapacity in H. run.
  first_step H as k Hk. first_step H as buf Hcopy. injection H as <-. fields.
  apply std_copy_Done in Hcopy as ->. rewrite length_ArrayPtr. lia.
Qed.

Lemma Insert_consistent u (pos : Z) x it v :
  consistent u -> 0 <= pos <= size_ u ->
  Insert u pos x = Done (it, v) -> consistent v.
Proof.
  unfold consistent, allocated. intros [Hsz Hcap] Hpos H.
  unfold Insert, begin_, end_ in H. run.
  rewrite Z.sub_0_r, !Z.add_0_l in H.
  pose proof (wrap_le pos) as Hidx.
  pose proof (wrap_le (size_ u + 1)) as Hwrap.
  set (c := if capacity_ u =? 0 then 1 else wrap (capacity_ u * 2)) in *.
  assert (Hc : 0 <= c).
  { subst c. pose proof (wrap_range (capacity_ u * 2)).
    destruct (capacity_ u =? 0); lia. }
  clearbody c.
  destruct (size_ u =? capacity_ u).
  - first_step H as n1 Hn1. first_step H as [old1 new1] Hm1.
    first_step H as new2 Hw. first_step H as n2 Hn2.
    first_step H as [old2 new3] Hm2. injection H as _ <-. fields.
    apply std_move_Done in Hm1 as [Hlen1 _].
    apply write_Done in Hw as [Hw ->].
    apply std_move_Done in Hm2 as [Hlen2 Hrange].
    apply distance_Done in Hn2 as [Hle ->].
    rewrite length_insert in *. rewrite Hlen2, Hlen1 in *.
    rewrite length_ArrayPtr in *.
    destruct (Z.to_nat (size_ u - wrap pos)) eqn:Hn2; lia.
  - first_step H as n Hn. first_step H as buf Hback.
    first_step H as buf' Hw. injection H as _ <-. fields.
    apply distance_Done in Hn as [Hle ->].
    apply std_move_backward_Done in Hback as [Hlen Hrange].
    apply write_Done in Hw as [Hw ->].
    rewrite length_insert, Hlen in *.
    destruct (Z.to_nat (wrap (size_ u + 1) - 1 - wrap pos)) eqn:Hn; lia.
Qed.

Lemma PopBack_consistent u v :
  consistent u -> PopBack u = Done v -> consistent v.
Proof.
  unfold consistent, allocated. intros [Hsz Hcap] H. unfold PopBack, decr in H.
  destruct (Z.ltb_spec 0 (size_ u)); [|discriminate].
  injection H as <-. fields. pose proof (wrap_le (size_ u - 1)). lia.
Qed.

Lemma Erase_consistent u (pos : Z) it v :
  consistent u -> 0 <= pos < size_ u ->
  Erase u pos = Done (it, v) -> consistent v.
Proof.
  unfold consistent, allocated. intros [Hsz Hcap] Hpos H.
  unfold Erase, decr in H.
  first_step H as n Hn. first_step H as buf Hmove. injection H as _ <-. fields.
  apply std_move_within_Done in Hmove as ->.
  pose proof (wrap_le (size_ u - 1)). lia.
Qed.

Lemma Reserve_consistent u (n : Z) v :
  consistent u -> Reserve u n = Done v -> consistent v.
Proof.
  unfold consistent, allocated. intros [Hsz Hcap] H. unfold Reserve in H.
  destruct (Z.ltb_spec (capacity_ u) n); [|injection H as <-; lia].
  first_step H as k Hk. first_step H as [old new] Hmove.
  injection H as <-. fields.
  apply std_move_Done in Hmove as [-> _]. rewrite length_ArrayPtr. lia.
Qed.

Lemma Resize_consistent u (n : Z) v :
  consistent u -> is_size_t n -> Resize u n = Done v -> consistent v.
Proof.
  unfold consistent, allocated, is_size_t. intros [Hsz Hcap] Hn H.
  unfold Resize, begin_ in H. rewrite !Z.add_0_l in H.
  destruct (Z.ltb_spec (capacity_ u) n).
  - first_step H as k Hk. first_step H as [old new1] Hmove.
    first_step H as m Hm. first_step H as new2 Hreset.
    injection H as <-. fields.
    rewrite for_each_reset_fill in Hreset.
    apply std_fill_Done in Hreset as [-> _].
    apply std_move_Done in Hmove as [-> _]. rewrite length_ArrayPtr. lia.
  - destruct (Z.ltb_spec (size_ u) n).
    + first_step H as m Hm. first_step H as buf Hreset.
      injection H as <-. fields.
      apply distance_Done in Hm as [_ ->].
      rewrite for_each_reset_fill in Hreset.
      apply std_fill_Done in Hreset as [-> Hrange]. lia.
    + injection H as <-. fields. lia.
Qed.

Lemma subscript_assign_consistent u (i : Z) x v :
  consistent u -> subscript_assign u i x = Done v -> consistent v.
Proof.
  unfold consistent, allocated. intros Hu H. unfold subscript_assign in H.
  destruct (_ && _); [|discriminate].
  first_step H as buf Hw. injection H as <-. fields.
  apply write_Done in Hw as [_ ->]. rewrite length_insert. exact Hu.
Qed.

(** X22: as long as no call has accessed a slot outside the buffer (every
    step of [reachable] is a call that returned [Done]), a container keeps
    its logical range inside the storage it really owns and never owns more
    slots than the capacity it reports (it may own fewer). *)
Lemma reachable_consistent v : reachable v -> consistent v.
Proof.
  induction 1 as
    [ | n v Hn Hv | n Hn | n x v Hn Hv | l v Hl Hv | u v _ IH Hv
    | u _ IH | u _ IH | u w _ IHu _ IHw | u x v _ IH Hv
    | u pos x it v _ IH Hpos Hv | u v _ IH Hv | u pos it v _ IH Hpos Hv
    | u n v _ IH Hn Hv | u _ IH | u n v _ IH Hn Hv | u i x v _ IH Hi Hv ].
  - unfold consistent, allocated. simpl. lia.
  - exact (SimpleVector_size_value_consistent n elt_default v Hn Hv).
  - unfold consistent, allocated, is_size_t in *. simpl.
    rewrite length_ArrayPtr. lia.
  - exact (SimpleVector_size_value_consistent n x v Hn Hv).
  - exact (SimpleVector_init_consistent l v Hv).
  - exact (SimpleVector_copy_consistent u v IH Hv).
  - exact IH.
  - unfold consistent, allocated. simpl. lia.
  - exact IHw.
  - exact (PushBack_consistent u x v IH Hv).
  - exact (Insert_consistent u pos x it v IH Hpos Hv).
  - exact (PopBack_consistent u v IH Hv).
  - exact (Erase_consistent u pos it v IH Hpos Hv).
  - exact (Reserve_consistent u n v IH Hv).
  - unfold consistent, allocated, Clear in *. simpl. lia.
  - exact (Resize_consistent u n v IH Hn Hv).
  - exact (subscript_assign_consistent u i x v IH Hv).
Qed.

End Reachable.

(** ** The code on containers of [int] *)

(** Arithmetic facts about explicitly given containers. *)
Ltac concrete :=
  unfold wf, consistent, can_double, is_size_t, allocated, GetSize,
    GetCapacity, size_t_modulus;
  simpl; lia.

(** The containers named above are the ones the constructors build. *)
Example one_two_built : SimpleVector_init [1; 2] = Done one_two.
Proof. reflexivity. Qed.

Example one_two_three_built : SimpleVector_init [1; 2; 3] = Done one_two_three.
Proof. reflexivity. Qed.

Example resized_2_3_result :
  resized_2_3 = Done {| array_ := [0; 0; 0]; size_ := 3; capacity_ := 4 |}.
Proof. reflexivity. Qed.

Example scenario_result :
  scenario = Done {| array_ := [9; 2; 3; 0; 0]; size_ := 5; capacity_ := 8 |}.
Proof. reflexivity. Qed.

Example popped_built : PopBack overstated = Done popped.
Proof. reflexivity. Qed.

Lemma resized_2_3_reachable v : resized_2_3 = Done v -> reachable v.
Proof.
  intros Hv. eapply reach_Resize with (n := 3);
    [eapply reach_size with (n := 2); [concrete | reflexivity]
    | concrete | exact Hv].
Qed.

(** C1: [SimpleVector<int> v(2); v.Resize(3);] is a reachable container
    that reports capacity 4 while its buffer has 3 slots. *)
Theorem Resize_overstates_capacity :
  exists v : SimpleVector Z,
    reachable v /\ GetSize v = 3 /\ GetCapacity v = 4 /\ allocated v = 3.
Proof.
  eexists. split; [apply resized_2_3_reachable; reflexivity|].
  repeat split; reflexivity.
Qed.

(** C2: on that reachable container, [PushBack], [Insert] and [Resize]
    each write to slot 3 of a buffer of 3 slots. *)
Theorem write_past_allocation :
  exists v : SimpleVector Z,
    reachable v
    /\ allocated v = 3
    /\ PushBack v 7 = Fail OutOfBounds
    /\ Insert v (begin_ v) 7 = Fail OutOfBounds
    /\ Resize v 4 = Fail OutOfBounds.
Proof.
  eexists. split; [apply resized_2_3_reachable; reflexivity|].
  repeat split; reflexivity.
Qed.

(** C4: [Resize(3)] on a container of size and capacity 2 takes the first
    branch, allocates 3 slots and records capacity [max(3, 2 * 2) = 4]. *)
Theorem Resize_allocates_new_size :
  exists u v : SimpleVector Z,
    SimpleVector_size 2 = Done u /\ GetCapacity u = 2
    /\ Resize u 3 = Done v
    /\ GetSize v = 3
    /\ allocated v = 3
    /\ GetCapacity v = Z.max 3 (GetCapacity u * 2)
    /\ GetCapacity v = 4.
Proof.
  eexists _, _. split; [reflexivity|]. split; [reflexivity|].
  split; [reflexivity|]. repeat split; reflexivity.
Qed.

(** C3: after [b = std::move(a)] with [a] holding [{1, 2}], [b] holds a
    copy and [a] still holds [{1, 2}], with size 2 and capacity 2. *)
Theorem move_assign_keeps_source :
  exists σ' : gmap nat (SimpleVector Z),
    assign_move 0 1 two_objects = Done σ'
    /\ σ' !! 0%nat = Some one_two
    /\ σ' !! 1%nat = Some one_two
    /\ GetSize one_two = 2 /\ GetCapacity one_two = 2.
Proof.
  eexists. split; [reflexivity|]. repeat split; reflexivity.
Qed.

Lemma popped_reachable : reachable popped.
Proof.
  eapply reach_PopBack; [|exact popped_built].
  exact (resized_2_3_reachable overstated resized_2_3_result).
Qed.

(** C8: on the reachable container [v(2); v.Resize(3)], which has 3
    elements in 3 slots and reports capacity 4, [Insert] at each position of
    [begin, end] writes slot 3, past the buffer: there is no inserted
    element and no iterator to erase at. *)
Theorem Insert_after_Resize_out_of_bounds :
  resized_2_3 = Done overstated
  /\ reachable overstated
  /\ GetSize overstated = 3 /\ allocated overstated = 3
  /\ GetCapacity overstated = 4
  /\ Insert overstated (begin_ overstated) 7 = Fail OutOfBounds
  /\ Insert overstated (begin_ overstated + 1) 7 = Fail OutOfBounds
  /\ Insert overstated (begin_ overstated + 2) 7 = Fail OutOfBounds
  /\ Insert overstated (end_ overstated) 7 = Fail OutOfBounds.
Proof.
  split; [reflexivity|].
  split; [exact (resized_2_3_reachable overstated resized_2_3_result)|].
  repeat split; reflexivity.
Qed.

(** ** Instances of the theorems *)

Lemma PushBack_growth_law_witness :
  0 <= size_ one_two <= allocated one_two
  /\ size_ one_two = capacity_ one_two
  /\ can_double one_two
  /\ exists v',
      PushBack one_two 3 = Done v'
      /\ GetCapacity v' = Z.max 1 (2 * capacity_ one_two)
      /\ allocated v' = GetCapacity v'
      /\ GetSize v' = size_ one_two + 1
      /\ logical v' = logical one_two ++ [3].
Proof.
  assert (H1 : 0 <= size_ one_two <= allocated one_two) by concrete.
  assert (H2 : size_ one_two = capacity_ one_two) by reflexivity.
  assert (H3 : can_double one_two) by reflexivity.
  repeat (split; [assumption|]).
  exact (PushBack_growth_law one_two 3 H1 H2 H3).
Defined.

Lemma move_construct_steals_witness :
  0%nat ≠ 1%nat
  /\ one_object !! 0%nat = Some one_two
  /\ exists σ' va',
      construct_move 1 0 one_object = Done σ'
      /\ σ' !! 1%nat = Some one_two
      /\ σ' !! 0%nat = Some va'
      /\ GetSize va' = 0 /\ GetCapacity va' = 0 /\ array_ va' = [].
Proof.
  assert (H1 : 0%nat ≠ 1%nat) by lia.
  assert (H2 : one_object !! 0%nat = Some one_two) by reflexivity.
  repeat (split; [assumption|]).
  exact (move_construct_steals one_object 0%nat 1%nat one_two H1 H2).
Defined.

Lemma At_checked_witness :
  0 <= size_ one_two_three <= allocated one_two_three
  /\ 0 <= 1
  /\ (At one_two_three 1 = Fail OutOfRangeError
      <-> GetSize one_two_three <= 1)
  /\ (1 < GetSize one_two_three ->
      exists x, logical one_two_three !! Z.to_nat 1 = Some x
                /\ At one_two_three 1 = Done (x, one_two_three)).
Proof.
  assert (H1 : 0 <= size_ one_two_three <= allocated one_two_three)
    by concrete.
  assert (H2 : 0 <= 1) by lia.
  repeat (split; [assumption|]).
  exact (At_checked one_two_three 1 H1 H2).
Defined.

Lemma relational_operators_witness :
  0 <= size_ one_two <= allocated one_two
  /\ 0 <= size_ one_two_three <= allocated one_two_three
  /\ exists eq lt gt : bool,
      op_eq one_two one_two_three = Done eq
      /\ op_ne one_two one_two_three = Done (negb eq)
      /\ op_lt one_two one_two_three = Done lt
      /\ op_le one_two one_two_three = Done (lt || eq)
      /\ op_gt one_two one_two_three = Done gt
      /\ op_ge one_two one_two_three = Done (gt || eq)
      /\ (eq = true
          <-> elementwise_equal (logical one_two) (logical one_two_three))
      /\ (lt = true
          <-> lexicographic_less (logical one_two) (logical one_two_three))
      /\ (gt = true
          <-> lexicographic_less (logical one_two_three) (logical one_two))
      /\ (forall y r,
            logical one_two_three = logical one_two ++ y :: r -> lt = true).
Proof.
  assert (H1 : 0 <= size_ one_two <= allocated one_two) by concrete.
  assert (H2 : 0 <= size_ one_two_three <= allocated one_two_three)
    by concrete.
  repeat (split; [assumption|]).
  exact (relational_operators one_two one_two_three H1 H2).
Defined.

Lemma self_move_assign_preserves_witness :
  two_objects !! 1%nat = Some one_two
  /\ consistent one_two
  /\ exists σ' va',
      assign_move 1 1 two_objects = Done σ'
      /\ σ' !! 1%nat = Some va'
      /\ logical va' = logical one_two
      /\ GetSize va' = GetSize one_two.
Proof.
  assert (H1 : two_objects !! 1%nat = Some one_two) by reflexivity.
  assert (H2 : consistent one_two) by concrete.
  repeat (split; [assumption|]).
  exact (self_move_assign_preserves two_objects 1%nat one_two H1 H2).
Defined.

(** The comparisons the specification lists. *)
Example relational_examples :
  op_lt one_two one_two_three = Done true
  /\ op_lt one_two_three one_three = Done true
  /\ op_lt SimpleVector_default
           {| array_ := [1]; size_ := 1; capacity_ := 1 |} = Done true
  /\ op_eq one_two one_two = Done true
  /\ op_lt one_two_three one_two = Done false
  /\ op_le one_two one_two = Done true
  /\ op_ge one_three one_two_three = Done true
  /\ op_ne one_two one_three = Done true.
Proof. repeat split; reflexivity. Qed.

(** * Further properties of the operations *)

(** Lengths of buffers built from pieces. *)
Ltac lens :=
  repeat (progress rewrite ?length_app, ?length_cons, ?length_insert,
            ?length_fmap, ?length_take, ?length_drop, ?length_replicate,
            ?length_ArrayPtr);
  cbn [length]; lia.

Section Modifiers.

Context {T : Type} `{!Element T}.
Implicit Types (v : SimpleVector T) (x : T).

(** *** Appending *)

(** What [PushBack] does to a container that satisfies the data model. *)
Lemma PushBack_spec v x :
  wf v -> is_size_t (capacity_ v) ->
  (size_ v = capacity_ v -> can_double v) ->
  exists v',
    PushBack v x = Done v'
    /\ wf v'
    /\ size_ v' = size_ v + 1
    /\ capacity_ v'
       = (if size_ v =? capacity_ v then Z.max 1 (2 * capacity_ v)
          else capacity_ v)
    /\ (size_ v <> capacity_ v ->
        array_ v' = <[Z.to_nat (size_ v) := x]> (array_ v))
    /\ logical v' = logical v ++ [x].
Proof.
  intros [Hsz Hal] Hcap Hdbl. unfold can_double, is_size_t in *.
  unfold allocated in Hal. unfold PushBack.
  pose proof size_t_modulus_pos as Hmod.
  assert (Hlen : length (logical v) = Z.to_nat (size_ v))
    by (apply length_logical; unfold allocated; lia).
  destruct (Z.eqb_spec (size_ v) (capacity_ v)) as [Heq|Hne].
  - specialize (Hdbl Heq).
    set (c := if capacity_ v =? 0 then 1 else wrap (capacity_ v * 2)).
    assert (Hc : c = Z.max 1 (2 * capacity_ v)).
    { subst c. destruct (Z.eqb_spec (capacity_ v) 0) as [->|];
        [reflexivity|]. rewrite wrap_small by lia. lia. }
    clearbody c.
    rewrite distance_logical by lia. run.
    destruct (std_move_all v c) as [old ->]; [unfold allocated; lia..|]. run.
    rewrite write_Z by lens. run.
    eexists. split; [reflexivity|]. unfold wf, allocated. run.
    rewrite (wrap_small (size_ v + 1)) by lia.
    split; [split; [lia | lens] |]. split; [reflexivity|].
    split; [exact Hc|]. split; [intros Hne; lia|].
    unfold logical at 1. run.
    replace (Z.to_nat (size_ v + 1)) with (S (Z.to_nat (size_ v))) by lia.
    apply take_insert_end; [symmetry; exact Hlen | lens].
  - run. rewrite write_Z by lia. run.
    eexists. split; [reflexivity|]. unfold wf, allocated. run.
    rewrite (wrap_small (size_ v + 1)) by lia.
    split; [split; [lia | lens] |]. split; [reflexivity|].
    split; [reflexivity|]. split; [reflexivity|].
    unfold logical. run.
    replace (Z.to_nat (size_ v + 1)) with (S (Z.to_nat (size_ v))) by lia.
    destruct (lookup_lt_is_Some_2 (array_ v) (Z.to_nat (size_ v)))
      as [h Hh]; [lia|].
    rewrite <- (take_drop_middle _ _ _ Hh) at 1.
    rewrite (insert_middle (take (Z.to_nat (size_ v)) (array_ v))) by lens.
    rewrite (cons_middle x), app_assoc. apply take_app_length'. lens.
Qed.

(** X7: an append to a container with spare capacity does not reallocate:
    the capacity is unchanged and the buffer is the same buffer with the
    slot at the old size overwritten; the new element ends the sequence. *)
Theorem PushBack_within_capacity v x :
  wf v -> is_size_t (capacity_ v) -> size_ v < capacity_ v ->
  exists v',
    PushBack v x = Done v'
    /\ GetCapacity v' = GetCapacity v
    /\ array_ v' = <[Z.to_nat (size_ v) := x]> (array_ v)
    /\ GetSize v' = GetSize v + 1
    /\ logical v' = logical v ++ [x].
Proof.
  intros Hwf Hcap Hlt.
  destruct (PushBack_spec v x Hwf Hcap) as (v' & Hv' & _ & Hs & Hc & Ha & Hl);
    [lia|].
  exists v'. unfold GetCapacity, GetSize. rewrite Hc.
  destruct (Z.eqb_spec (size_ v) (capacity_ v)); [lia|].
  repeat split; auto.
Qed.

(** *** Removing the last element *)

Lemma PopBack_spec v :
  0 < size_ v <= allocated v -> size_ v <= size_t_modulus ->
  exists x,
    PopBack v
    = Done {| array_ := array_ v; size_ := size_ v - 1;
              capacity_ := capacity_ v |}
    /\ logical v
       = take (Z.to_nat (size_ v - 1)) (array_ v) ++ [x].
Proof.
  unfold allocated. intros Hsz Hmax. unfold PopBack, decr.
  destruct (Z.ltb_spec 0 (size_ v)) as [_|]; [|lia].
  rewrite wrap_small by lia.
  destruct (lookup_lt_is_Some_2 (array_ v) (Z.to_nat (size_ v - 1)))
    as [x Hx]; [lia|].
  exists x. split; [reflexivity|]. unfold logical.
  replace (Z.to_nat (size_ v)) with (S (Z.to_nat (size_ v - 1))) by lia.
  apply take_S_r, Hx.
Qed.

(** X10: [PopBack] fails its assertion exactly on an empty container;
    otherwise it drops the last element of the sequence and touches neither
    the buffer nor the capacity. *)
Theorem PopBack_drops_last v :
  consistent v -> is_size_t (size_ v) ->
  (PopBack v = Fail AssertFailure <-> GetSize v = 0)
  /\ (0 < GetSize v ->
      exists v' x,
        PopBack v = Done v'
        /\ logical v = logical v' ++ [x]
        /\ GetSize v' = GetSize v - 1
        /\ GetCapacity v' = GetCapacity v
        /\ array_ v' = array_ v).
Proof.
  unfold consistent, is_size_t, GetSize, GetCapacity.
  intros [Hsz Hal] Hmax. split.
  - unfold PopBack. destruct (Z.ltb_spec 0 (size_ v)); split;
      (discriminate || lia || reflexivity).
  - intros Hpos. destruct (PopBack_spec v) as (x & -> & Hx); [lia..|].
    eexists _, x. split; [reflexivity|]. unfold logical at 2. run. auto.
Qed.

(** *** Sequences of appends *)

Lemma PushBack_all_room v (items : list T) :
  wf v -> is_size_t (capacity_ v) ->
  size_ v + Z.of_nat (length items) <= capacity_ v ->
  exists v',
    PushBack_all v items = Done v'
    /\ wf v'
    /\ GetCapacity v' = GetCapacity v
    /\ GetSize v' = GetSize v + Z.of_nat (length items)
    /\ logical v' = logical v ++ items.
Proof.
  unfold GetCapacity, GetSize. revert v.
  induction items as [|x items IH]; intros v Hwf Hcap Hfit; simpl in *.
  - exists v. rewrite app_nil_r. split; [reflexivity|].
    split; [exact Hwf|]. repeat split; lia.
  - destruct (PushBack_spec v x Hwf Hcap)
      as (v1 & -> & Hwf1 & Hs & Hc & _ & Hl); [lia|]. run.
    destruct (Z.eqb_spec (size_ v) (capacity_ v)); [lia|].
    destruct (IH v1) as (v' & -> & Hwf' & Hc' & Hs' & Hl');
      [exact Hwf1 | rewrite Hc; exact Hcap | lia |].
    exists v'. split; [reflexivity|]. split; [exact Hwf'|].
    split; [lia|]. split; [lia|].
    rewrite Hl', Hl, <- app_assoc. reflexivity.
Qed.

(** X8: appends that fit in the spare capacity never reallocate: the
    capacity is unchanged and the appended elements follow the old ones in
    order. *)
Theorem PushBack_all_within_capacity v (items : list T) :
  wf v -> is_size_t (capacity_ v) ->
  size_ v + Z.of_nat (length items) <= capacity_ v ->
  exists v',
    PushBack_all v items = Done v'
    /\ wf v'
    /\ GetCapacity v' = GetCapacity v
    /\ GetSize v' = GetSize v + Z.of_nat (length items)
    /\ logical v' = logical v ++ items.
Proof. apply PushBack_all_room. Qed.

Lemma PushBack_all_doubled v (items : list T) :
  wf v -> doubled v ->
  2 * (size_ v + Z.of_nat (length items)) <= size_t_modulus ->
  exists v',
    PushBack_all v items = Done v'
    /\ wf v' /\ doubled v'
    /\ size_ v' = size_ v + Z.of_nat (length items)
    /\ logical v' = logical v ++ items.
Proof.
  revert v.
  induction items as [|x items IH]; intros v Hwf Hdbl Hfit; simpl in *.
  - exists v. rewrite app_nil_r. split; [reflexivity|].
    split; [exact Hwf|]. split; [exact Hdbl|]. split; [lia | reflexivity].
  - pose proof size_t_modulus_pos as Hmod.
    destruct Hdbl as [Hzero Hpow].
    assert (Hsz : 0 <= size_ v <= capacity_ v) by apply Hwf.
    assert (Hcap : capacity_ v < 2 * size_ v \/ capacity_ v = 0).
    { destruct (Z.eq_dec (size_ v) 0) as [H0|H0]; [right; auto|].
      left. destruct Hpow as (k & _ & _ & Hk); lia. }
    destruct (PushBack_spec v x Hwf)
      as (v1 & -> & Hwf1 & Hs & Hc & _ & Hl);
      [unfold is_size_t; lia | unfold can_double; lia |]. run.
    assert (Hdbl1 : doubled v1).
    { split; [lia|]. intros _. rewrite Hc, Hs.
      destruct (Z.eqb_spec (size_ v) (capacity_ v)) as [Heq|Hne].
      - destruct (Z.eq_dec (size_ v) 0) as [H0|H0].
        + exists 0. rewrite <- Heq, H0. simpl. lia.
        + destruct Hpow as (k & Hk0 & Hk & _); [lia|].
          exists (k + 1). rewrite Z.pow_add_r, <- Hk by lia.
          change (2 ^ 1) with 2. lia.
      - destruct Hpow as (k & Hk0 & Hk & Hr); [lia|].
        exists k. lia. }
    destruct (IH v1 Hwf1 Hdbl1) as (v' & -> & Hwf' & Hdbl' & Hs' & Hl');
      [lia|].
    exists v'. split; [reflexivity|]. split; [exact Hwf'|].
    split; [exact Hdbl'|]. split; [lia|].
    rewrite Hl', Hl, <- app_assoc. reflexivity.
Qed.

(** X9: appending the elements of a list, one by one, to an empty container
    gives a container that holds exactly that list, satisfies the data
    model, and whose capacity is the power of two that is at least the
    number of elements and less than twice that number (0 for no element). *)
Theorem PushBack_all_from_empty (items : list T) :
  2 * Z.of_nat (length items) <= size_t_modulus ->
  exists v,
    PushBack_all SimpleVector_default items = Done v
    /\ wf v
    /\ logical v = items
    /\ GetSize v = Z.of_nat (length items)
    /\ (items = [] -> GetCapacity v = 0)
    /\ (items <> [] ->
        exists k, 0 <= k /\ GetCapacity v = 2 ^ k
                  /\ Z.of_nat (length items) <= GetCapacity v
                     < 2 * Z.of_nat (length items)).
Proof.
  intros Hfit.
  destruct (PushBack_all_doubled SimpleVector_default items)
    as (v & Hv & Hwf & [Hzero Hpow] & Hs & Hl).
  - unfold wf, allocated. simpl. lia.
  - split; [reflexivity | simpl; lia].
  - simpl. lia.
  - assert (Hs' : size_ v = Z.of_nat (length items)) by (simpl in Hs; lia).
    unfold GetSize, GetCapacity.
    exists v. split; [exact Hv|]. split; [exact Hwf|].
    split; [exact Hl|]. split; [exact Hs'|]. split.
    + intros ->. apply Hzero. simpl in Hs'. lia.
    + intros Hne. rewrite <- Hs'. apply Hpow.
      destruct items; [congruence | simpl in Hs'; lia].
Qed.

(** *** Inserting and erasing *)

Lemma Insert_Done_capacity v (pos : Z) x it v' :
  Insert v pos x = Done (it, v') ->
  capacity_ v'
  = (if size_ v =? capacity_ v
     then (if capacity_ v =? 0 then 1 else wrap (capacity_ v * 2))
     else capacity_ v).
Proof.
  unfold Insert. intros H. destruct (size_ v =? capacity_ v).
  - first_step H as n1 Hn1. first_step H as [old1 new1] Hm1.
    first_step H as new2 Hw. first_step H as n2 Hn2.
    first_step H as [old2 new3] Hm2. injection H as _ <-. reflexivity.
  - first_step H as n Hn. first_step H as buf Hback.
    first_step H as buf' Hw. injection H as _ <-. reflexivity.
Qed.

(** X14: [Erase] at a position that holds an element removes that element
    and keeps the order of the others; it returns the same position, which
    is [end()] when the last element was erased; capacity and buffer size
    are unchanged. *)
Theorem Erase_removes v (pos : Z) :
  consistent v -> is_size_t (size_ v) -> 0 <= pos < size_ v ->
  exists v',
    Erase v pos = Done (pos, v')
    /\ logical v'
       = take (Z.to_nat pos) (logical v)
           ++ drop (S (Z.to_nat pos)) (logical v)
    /\ GetSize v' = GetSize v - 1
    /\ GetCapacity v' = GetCapacity v
    /\ allocated v' = allocated v
    /\ (pos = size_ v - 1 -> pos = end_ v').
Proof.
  intros [Hsz Hal] Hmax Hpos. unfold is_size_t in Hmax.
  destruct (Erase_spec v pos) as (v' & He & Hs & Hc & Ha & Hl); [lia..|].
  exists v'. unfold GetSize, GetCapacity, end_, begin_.
  repeat split; auto. lia.
Qed.

(** X15: [Erase(end())], in particular any [Erase] on an empty container,
    hands [std::move] a range whose start lies one past its end. *)
Theorem Erase_at_end_invalid v :
  is_size_t (size_ v) -> Erase v (end_ v) = Fail InvalidRange.
Proof.
  unfold is_size_t. intros Hs. unfold Erase, end_, begin_, distance.
  rewrite !Z.add_0_l, Z.sub_0_r, wrap_small by lia.
  destruct (Z.leb_spec (size_ v + 1) (size_ v)); [lia | reflexivity].
Qed.

(** *** Capacity and size management *)



(** *** Element access *)

(** X20: unchecked and checked access agree on every valid index and both
    refuse every other one, [operator[]] by its assertion and [At] by
    [std::out_of_range]. *)
Theorem subscript_agrees_with_At v (index : Z) :
  consistent v -> 0 <= index ->
  (index < GetSize v ->
   exists x,
     logical v !! Z.to_nat index = Some x
     /\ subscript v index = Done x
     /\ At v index = Done (x, v))
  /\ (GetSize v <= index ->
      subscript v index = Fail AssertFailure
      /\ At v index = Fail OutOfRangeError).
Proof.
  intros [Hsz Hal] Hi. unfold GetSize, subscript, At, allocated in *. split.
  - intros Hlt.
    destruct (lookup_lt_is_Some_2 (array_ v) (Z.to_nat index)) as [x Hx];
      [lia|].
    exists x. unfold logical. rewrite lookup_take_lt by lia.
    split; [exact Hx|].
    destruct (Z.ltb_spec 0 (size_ v)); [|lia].
    destruct (Z.ltb_spec index (size_ v)); [|lia].
    destruct (Z.leb_spec (size_ v) index); [lia|].
    rewrite (read_Z _ _ x) by (lia || exact Hx). split; reflexivity.
  - intros Hge.
    destruct (Z.ltb_spec index (size_ v)); [lia|].
    destruct (Z.leb_spec (size_ v) index); [|lia].
    rewrite andb_false_r. split; reflexivity.
Qed.

(** X21: an assignment through [operator[]] at a valid index replaces that
    element and no other, leaves size, capacity and buffer length alone,
    and is what [At] reads back. *)
Theorem subscript_assign_then_At v (index : Z) x :
  consistent v -> 0 <= index < size_ v ->
  exists v',
    subscript_assign v index x = Done v'
    /\ logical v' = <[Z.to_nat index := x]> (logical v)
    /\ GetSize v' = GetSize v
    /\ GetCapacity v' = GetCapacity v
    /\ allocated v' = allocated v
    /\ At v' index = Done (x, v').
Proof.
  intros [Hsz Hal] Hi. unfold subscript_assign, allocated in *.
  destruct (Z.ltb_spec 0 (size_ v)); [|lia].
  destruct (Z.ltb_spec index (size_ v)); [|lia]. simpl.
  rewrite write_Z by lia. run. eexists. split; [reflexivity|].
  unfold logical, GetSize, GetCapacity, allocated, At. run.
  split; [apply take_insert_lt; lia|]. split; [reflexivity|].
  split; [reflexivity|]. split; [f_equal; apply length_insert|].
  destruct (Z.leb_spec (size_ v) index); [lia|].
  rewrite (read_Z _ _ x); [reflexivity | lia |].
  apply list_lookup_insert_eq. lia.
Qed.

(** *** Construction and copying *)

Lemma SimpleVector_size_value_spec (n : Z) x :
  is_size_t n ->
  SimpleVector_size_value n x
  = Done {| array_ := replicate (Z.to_nat n) x; size_ := n; capacity_ := n |}.
Proof.
  intros [Hn _]. unfold SimpleVector_size_value, begin_, end_, distance.
  cbn [array_ size_ capacity_]. rewrite Z.add_0_l, Z.sub_0_r.
  destruct (Z.leb_spec 0 n); [|lia]. run.
  rewrite std_fill_Z by lens. run.
  change (Z.to_nat 0) with 0%nat.
  rewrite take_0, app_nil_l, drop_ge, app_nil_r by lens. reflexivity.
Qed.

(** X3: the initializer-list constructor always succeeds and builds the
    container whose buffer is exactly the list: same elements in the same
    order, size and capacity equal to the length of the list. *)
Theorem SimpleVector_init_holds_list (init : list T) :
  SimpleVector_init init
  = Done {| array_ := init; size_ := Z.of_nat (length init);
            capacity_ := Z.of_nat (length init) |}
  /\ logical {| array_ := init; size_ := Z.of_nat (length init);
               capacity_ := Z.of_nat (length init) |} = init.
Proof.
  split.
  - unfold SimpleVector_init, begin_. cbn [array_ size_ capacity_].
    pose proof (std_copy_spec (length init) init 0
                  (ArrayPtr (Z.of_nat (length init))) 0) as Hcopy.
    change (Z.of_nat 0) with 0 in Hcopy. rewrite Hcopy by lens. run.
    rewrite take_0, drop_0, app_nil_l, firstn_all, drop_ge, app_nil_r
      by lens.
    reflexivity.
  - unfold logical. run. rewrite Nat2Z.id. apply firstn_all.
Qed.

(** X4: the copy constructor builds a container with the same sequence,
    size and capacity as its source, and with exactly that capacity
    allocated, even when the source had fewer slots than it reported. *)
Theorem copy_is_faithful v :
  consistent v ->
  exists v',
    SimpleVector_copy v = Done v'
    /\ wf v'
    /\ logical v' = logical v
    /\ GetSize v' = GetSize v
    /\ GetCapacity v' = GetCapacity v.
Proof.
  intros Hv.
  destruct (SimpleVector_copy_spec v Hv) as (v' & Hv' & Hs & Hc & Ha & Hl).
  destruct Hv as [Hsz Hal].
  exists v'. unfold wf, GetSize, GetCapacity. repeat split; auto; lia.
Qed.

(** X5: copy assignment gives the target a copy of the source (same
    sequence and size), leaves the source and every other object as they
    were, and changes nothing at all when target and source are the same
    object. *)
Theorem assign_copy_copies (σ : gmap nat (SimpleVector T)) (this rhs : nat)
    self other :
  σ !! this = Some self -> σ !! rhs = Some other -> consistent other ->
  exists σ' copy,
    assign_copy this rhs σ = Done σ'
    /\ σ' !! this = Some copy
    /\ logical copy = logical other
    /\ GetSize copy = GetSize other
    /\ σ' !! rhs = Some other
    /\ (forall l, l ≠ this -> σ' !! l = σ !! l)
    /\ (this = rhs -> σ' = σ).
Proof.
  intros Hself Hother Hcons. unfold assign_copy.
  destruct (decide (this ≠ rhs)) as [Hne|Heq].
  - unfold deref. rewrite Hother. run.
    destruct (SimpleVector_copy_spec other Hcons)
      as (tmp & -> & Hsz & _ & _ & Hlog).
    run. rewrite Hself. run. unfold swap. eexists _, _.
    split; [reflexivity|]. rewrite lookup_insert_eq.
    split; [reflexivity|]. unfold logical, GetSize in *. run.
    split; [exact Hlog|]. split; [exact Hsz|].
    split; [rewrite lookup_insert_ne by congruence; exact Hother|].
    split; [|congruence].
    intros l Hl. apply lookup_insert_ne. congruence.
  - assert (this = rhs) as -> by (destruct (decide (this = rhs)); tauto).
    assert (self = other) as -> by congruence.
    exists σ, other. repeat split; auto.
Qed.

(** *** Comparing after copying and appending *)

Lemma elementwise_equal_refl (l : list T) :
  Forall (fun x => elt_eq x x = true) l -> elementwise_equal l l.
Proof.
  unfold elementwise_equal. induction 1; constructor; assumption.
Qed.

(** X23: when every element equals itself, a copy compares equal to its
    source. *)
Theorem copy_compares_equal v :
  consistent v -> Forall (fun x => elt_eq x x = true) (logical v) ->
  exists v',
    SimpleVector_copy v = Done v'
    /\ op_eq v v' = Done true
    /\ op_ne v v' = Done false.
Proof.
  intros Hv Hrefl.
  destruct (SimpleVector_copy_spec v Hv) as (v' & Hv' & Hs & Hc & Ha & Hl).
  destruct Hv as [Hsz Hal].
  destruct (op_eq_spec v v') as ([|] & Heq & Hiff); [lia..| |].
  - exists v'. unfold op_ne. rewrite Heq. auto.
  - exfalso. assert (false = true); [|discriminate].
    apply Hiff. rewrite Hl. apply elementwise_equal_refl, Hrefl.
Qed.

(** *** Containers with an allocated slot to write *)

Lemma wf_appendable v : wf v -> appendable v.
Proof.
  intros [Hsz Hal]. unfold appendable, consistent. lia.
Qed.

Lemma appendable_full_wf v : appendable v -> size_ v = capacity_ v -> wf v.
Proof.
  intros [[Hsz Hal] _] Heq. unfold wf. lia.
Qed.

Lemma PushBack_slots v x :
  appendable v -> is_size_t (capacity_ v) ->
  (size_ v = capacity_ v -> can_double v) ->
  exists v',
    PushBack v x = Done v'
    /\ consistent v'
    /\ size_ v' = size_ v + 1
    /\ capacity_ v'
       = (if size_ v =? capacity_ v then Z.max 1 (2 * capacity_ v)
          else capacity_ v)
    /\ (size_ v <> capacity_ v ->
        array_ v' = <[Z.to_nat (size_ v) := x]> (array_ v))
    /\ logical v' = logical v ++ [x].
Proof.
  intros Happ Hcap Hdbl.
  destruct (Z.eq_dec (size_ v) (capacity_ v)) as [Heq|Hne].
  - destruct (PushBack_spec v x) as (v' & Hv' & [Hsz' Hal'] & Hrest);
      [apply appendable_full_wf; assumption | assumption..|].
    exists v'. split; [exact Hv'|]. split; [|exact Hrest].
    unfold consistent. lia.
  - destruct Happ as [[Hsz Hal] Hroom]. specialize (Hroom Hne).
    unfold is_size_t, allocated in *. unfold PushBack.
    destruct (Z.eqb_spec (size_ v) (capacity_ v)) as [|_]; [contradiction|].
    run. rewrite write_Z by lia. run.
    eexists. split; [reflexivity|]. unfold consistent, allocated. run.
    rewrite (wrap_small (size_ v + 1)) by lia.
    split; [rewrite length_insert; lia|]. split; [reflexivity|].
    split; [reflexivity|]. split; [reflexivity|].
    unfold logical. run.
    replace (Z.to_nat (size_ v + 1)) with (S (Z.to_nat (size_ v))) by lia.
    destruct (lookup_lt_is_Some_2 (array_ v) (Z.to_nat (size_ v)))
      as [h Hh]; [lia|].
    rewrite <- (take_drop_middle _ _ _ Hh) at 1.
    rewrite (insert_middle (take (Z.to_nat (size_ v)) (array_ v))) by lens.
    rewrite (cons_middle x), app_assoc. apply take_app_length'. lens.
Qed.

Lemma Insert_slots v (pos : Z) x :
  appendable v -> is_size_t (capacity_ v) ->
  (size_ v = capacity_ v -> can_double v) -> 0 <= pos <= size_ v ->
  exists v',
    Insert v pos x = Done (pos, v')
    /\ consistent v'
    /\ size_ v' = size_ v + 1
    /\ logical v'
       = take (Z.to_nat pos) (logical v)
           ++ x :: drop (Z.to_nat pos) (logical v).
Proof.
  intros Happ Hcap Hdbl Hpos.
  destruct (Z.eq_dec (size_ v) (capacity_ v)) as [Heq|Hne].
  - destruct (Insert_spec v pos x) as (v' & Hv' & [Hsz' Hal'] & Hs & Hl);
      [apply appendable_full_wf; assumption | auto | exact Hpos |].
    exists v'. split; [exact Hv'|]. split; [unfold consistent; lia|].
    split; assumption.
  - destruct Happ as [[Hsz Hal] Hroom]. specialize (Hroom Hne).
    destruct v as [old sz cap]. unfold is_size_t, consistent, allocated, logical in *.
    cbn [array_ size_ capacity_] in *.
    assert (Hs : sz = Z.of_nat (Z.to_nat sz)) by lia.
    assert (Hp : pos = Z.of_nat (Z.to_nat pos)) by lia.
    set (s := Z.to_nat sz) in *. set (p := Z.to_nat pos) in *.
    clearbody s p. subst sz pos.
    unfold Insert, begin_, end_. cbn [array_ size_ capacity_].
    destruct (Z.eqb_spec (Z.of_nat s) cap) as [|_]; [contradiction|].
    rewrite Z.sub_0_r, (wrap_small (Z.of_nat p)) by lia.
    rewrite !Z.add_0_l, (wrap_small (Z.of_nat s + 1)) by lia.
    replace (Z.of_nat s + 1) with (Z.of_nat (S s)) by lia.
    replace (Z.of_nat (S s) - 1) with (Z.of_nat s) by lia.
    rewrite distance_nat by lia. run.
    destruct (std_move_backward_spec (s - p) old s) as [h ->]; [lia..|].
    run. rewrite write_nat by lens. run.
    eexists. split; [reflexivity|]. run.
    replace (s - (s - p))%nat with p by lia.
    rewrite (insert_middle (take p old)) by lens.
    rewrite Nat2Z.id, take_take, Nat.min_l by lia.
    replace (drop p (take s old)) with (take (s - p) (drop p old))
      by (rewrite take_drop_commute; do 2 f_equal; lia).
    split; [split; [lens | lens] |]. split; [reflexivity|].
    change (take p old ++ x :: take (s - p) (drop p old) ++ drop (S s) old)
      with (take p old ++ (x :: take (s - p) (drop p old)) ++ drop (S s) old).
    rewrite app_assoc. apply take_app_length'. lens.
Qed.

(** X11: on a container whose sequence lies in its storage and which is
    full or has an allocated slot after its last element (and whose
    capacity, if it must grow, can be doubled), appending an element and
    removing the last one gives back the sequence and the size it had; the
    capacity does not go down. *)
Theorem PopBack_PushBack_identity v x :
  appendable v -> is_size_t (capacity_ v) ->
  (size_ v = capacity_ v -> can_double v) ->
  exists v1 v2,
    PushBack v x = Done v1
    /\ PopBack v1 = Done v2
    /\ logical v2 = logical v
    /\ GetSize v2 = GetSize v
    /\ GetCapacity v <= GetCapacity v2.
Proof.
  intros Happ Hcap Hdbl.
  destruct (PushBack_slots v x Happ Hcap Hdbl)
    as (v1 & Hv1 & [Hsz1 Hal1] & Hs & Hc & _ & Hl).
  destruct Happ as [[Hsz Hal] _]. unfold is_size_t, can_double in *.
  pose proof size_t_modulus_pos as Hmod.
  assert (Hc1 : capacity_ v <= capacity_ v1 /\ size_ v1 <= size_t_modulus).
  { rewrite Hc. destruct (Z.eqb_spec (size_ v) (capacity_ v)); lia. }
  destruct (PopBack_spec v1) as (y & Hv2 & Hy); [lia..|].
  eexists v1, _. split; [exact Hv1|]. split; [exact Hv2|].
  unfold GetSize, GetCapacity. run. split; [|lia].
  unfold logical at 1. run. rewrite Hl in Hy.
  apply app_inj_tail in Hy as [Hy _]. symmetry. exact Hy.
Qed.

(** X12: on such a container, [Insert] at a position of [begin, end]
    returns the position it was given, which then holds the inserted value;
    the elements before it keep their places and those from it onward move
    one place up; the capacity doubles (from 0, becomes 1) exactly when the
    container was full. *)
Theorem Insert_places_value v (pos : Z) x :
  appendable v -> is_size_t (capacity_ v) ->
  (size_ v = capacity_ v -> can_double v) -> 0 <= pos <= size_ v ->
  exists v',
    Insert v pos x = Done (pos, v')
    /\ consistent v'
    /\ GetSize v' = GetSize v + 1
    /\ GetCapacity v'
       = (if size_ v =? capacity_ v then Z.max 1 (2 * capacity_ v)
          else capacity_ v)
    /\ At v' pos = Done (x, v')
    /\ logical v'
       = take (Z.to_nat pos) (logical v)
           ++ x :: drop (Z.to_nat pos) (logical v).
Proof.
  intros Happ Hcap Hdbl Hpos.
  destruct (Insert_slots v pos x Happ Hcap Hdbl Hpos)
    as (v' & Hins & Hcons' & Hs & Hl).
  pose proof (Insert_Done_capacity _ _ _ _ _ Hins) as Hc.
  destruct Happ as [[Hsz Hal] _]. destruct Hcons' as [Hsz' Hal'].
  unfold can_double, is_size_t in *.
  exists v'. unfold GetSize, GetCapacity.
  split; [exact Hins|]. split; [split; assumption|]. split; [exact Hs|].
  split.
  { rewrite Hc. destruct (Z.eqb_spec (size_ v) (capacity_ v)) as [Heq|];
      [|reflexivity]. specialize (Hdbl Heq).
    destruct (Z.eqb_spec (capacity_ v) 0) as [->|]; [reflexivity|].
    rewrite wrap_small by lia. lia. }
  split; [|exact Hl].
  assert (Hlen : length (take (Z.to_nat pos) (logical v)) = Z.to_nat pos).
  { rewrite length_take, length_logical by lia. lia. }
  assert (Hx : array_ v' !! Z.to_nat pos = Some x).
  { rewrite <- (lookup_take_lt _ (Z.to_nat (size_ v'))) by lia.
    fold (logical v'). rewrite Hl.
    apply list_lookup_middle. symmetry. exact Hlen. }
  unfold At. destruct (Z.leb_spec (size_ v') pos); [lia|].
  rewrite (read_Z _ _ x) by (lia || exact Hx). reflexivity.
Qed.

(** X26: on such a container, erasing at the iterator that [Insert]
    returned gives back the sequence and the size the container had. *)
Theorem Erase_Insert_round_trip v (pos : Z) x :
  appendable v -> is_size_t (capacity_ v) ->
  (size_ v = capacity_ v -> can_double v) -> 0 <= pos <= size_ v ->
  exists it v1 it' v2,
    Insert v pos x = Done (it, v1)
    /\ Erase v1 it = Done (it', v2)
    /\ logical v2 = logical v
    /\ GetSize v2 = GetSize v.
Proof.
  intros Happ Hcap Hdbl Hpos.
  destruct (Insert_slots v pos x Happ Hcap Hdbl Hpos)
    as (v1 & Hins & [Hsz1 Hal1] & Hsize1 & Hlog1).
  pose proof (Insert_Done_capacity _ _ _ _ _ Hins) as Hc1.
  pose proof size_t_modulus_pos as Hmod.
  destruct Happ as [[Hsz Hal] Hroom]. unfold can_double, is_size_t in *.
  assert (Hmax : size_ v1 < size_t_modulus).
  { destruct (Z.eq_dec (size_ v) (capacity_ v)) as [Heq|Hne].
    - specialize (Hdbl Heq). lia.
    - specialize (Hroom Hne). lia. }
  destruct (Erase_spec v1 pos) as (v2 & Her & Hsize2 & _ & _ & Hlog2);
    [lia..|].
  exists pos, v1, pos, v2. split; [exact Hins|]. split; [exact Her|].
  unfold GetSize. split; [|lia].
  assert (Hlen : length (take (Z.to_nat pos) (logical v)) = Z.to_nat pos).
  { rewrite length_take, length_logical by lia. lia. }
  rewrite Hlog2, Hlog1.
  rewrite take_app_length' by (symmetry; exact Hlen).
  rewrite (cons_middle x), app_assoc.
  rewrite drop_app_length' by (rewrite length_app, Hlen; simpl; lia).
  apply take_drop.
Qed.

(** X27: on a container that reports spare capacity while every slot of
    its buffer is in use, [PushBack] and [Insert] at any position of
    [begin, end] write the slot one past the buffer. *)
Theorem full_buffer_overflows v x :
  consistent v -> is_size_t (capacity_ v) ->
  size_ v <> capacity_ v -> size_ v = allocated v ->
  PushBack v x = Fail OutOfBounds
  /\ forall pos, 0 <= pos <= size_ v -> Insert v pos x = Fail OutOfBounds.
Proof.
  intros [Hsz Hal] Hcap Hne Hfull. unfold is_size_t, allocated in *. split.
  - unfold PushBack.
    destruct (Z.eqb_spec (size_ v) (capacity_ v)) as [|_]; [contradiction|].
    run. rewrite write_outside by lia. reflexivity.
  - intros pos Hpos. unfold Insert, begin_, end_.
    destruct (Z.eqb_spec (size_ v) (capacity_ v)) as [|_]; [contradiction|].
    cbn [array_ size_ capacity_].
    rewrite Z.sub_0_r, (wrap_small pos), !Z.add_0_l by lia.
    rewrite (wrap_small (size_ v + 1)) by lia.
    replace (size_ v + 1 - 1) with (size_ v) by lia.
    unfold distance. destruct (Z.leb_spec pos (size_ v)) as [_|]; [|lia].
    run. destruct (Z.to_nat (size_ v - pos)) as [|n] eqn:Hn.
    + cbn [std_move_backward]. run.
      assert (pos = size_ v) as -> by lia.
      rewrite write_outside by lia. reflexivity.
    + cbn [std_move_backward].
      destruct (lookup_lt_is_Some_2 (array_ v) (Z.to_nat (size_ v - 1)))
        as [y Hy]; [lia|].
      rewrite (read_Z _ _ y) by (lia || exact Hy). run.
      rewrite write_outside by lia. reflexivity.
Qed.

(** X13: inserting at [end()] is appending.  On every container whose
    sequence lies in its storage, [Insert(end(), x)] does what [PushBack(x)]
    does and returns the old [end()]: the same container afterwards, buffer
    included, or the same write past the buffer. *)
Theorem Insert_at_end_is_PushBack v x :
  consistent v -> is_size_t (capacity_ v) ->
  (size_ v = capacity_ v -> can_double v) ->
  Insert v (end_ v) x = (v' ← PushBack v x; mret (end_ v, v')).
Proof.
  intros [Hsz Hal] Hcap Hdbl. unfold can_double, is_size_t, allocated in *.
  pose proof size_t_modulus_pos as Hmod.
  unfold Insert, PushBack, end_, begin_.
  rewrite !Z.add_0_l, Z.sub_0_r, (wrap_small (size_ v)) by lia.
  destruct (Z.eqb_spec (size_ v) (capacity_ v)) as [Heq|Hne].
  - specialize (Hdbl Heq). rewrite (wrap_small (size_ v + 1)) by lia.
    set (c := if capacity_ v =? 0 then 1 else wrap (capacity_ v * 2)).
    assert (Hc : c = Z.max 1 (2 * capacity_ v)).
    { subst c. destruct (Z.eqb_spec (capacity_ v) 0) as [->|];
        [reflexivity|]. rewrite wrap_small by lia. lia. }
    clearbody c.
    unfold distance. rewrite Z.leb_refl, Z.sub_diag.
    destruct (Z.leb_spec 0 (size_ v)) as [_|]; [|lia].
    rewrite Z.sub_0_r. run.
    destruct (std_move_all v c) as [old Hmove]; [unfold allocated; lia..|].
    unfold begin_ in Hmove. rewrite Hmove. run.
    pose proof (length_logical v) as Hlen. unfold allocated in Hlen.
    rewrite write_Z by lens. run.
    rewrite ?(wrap_small (size_ v + 1)) by lia. reflexivity.
  - unfold distance. cbn [size_ array_ capacity_].
    rewrite (wrap_small (size_ v + 1)) by lia.
    replace (size_ v + 1 - 1) with (size_ v) by lia.
    rewrite Z.leb_refl, Z.sub_diag. run.
    change (Z.to_nat 0) with 0%nat. cbn [std_move_backward]. run.
    destruct (write (array_ v) (size_ v) x); run;
      rewrite ?(wrap_small (size_ v + 1)) by lia; reflexivity.
Qed.

(** X24: whatever the comparison of elements is, a container (as in X11)
    is strictly less than itself with one more element appended: [<], [<=]
    and [!=] hold between them and [==] does not. *)
Theorem append_makes_greater v x :
  appendable v -> is_size_t (capacity_ v) ->
  (size_ v = capacity_ v -> can_double v) ->
  exists v',
    PushBack v x = Done v'
    /\ op_lt v v' = Done true
    /\ op_le v v' = Done true
    /\ op_eq v v' = Done false
    /\ op_ne v v' = Done true.
Proof.
  intros Happ Hcap Hdbl.
  destruct (PushBack_slots v x Happ Hcap Hdbl)
    as (v' & Hv' & [Hsz' Hal'] & Hs & _ & _ & Hl).
  destruct Happ as [[Hsz Hal] _].
  destruct (op_lt_spec v v') as (lt & Hlt & Hlt_iff); [lia..|].
  destruct (op_eq_spec v v') as (eq & Heq & Heq_iff); [lia..|].
  assert (lt = true) as ->.
  { apply Hlt_iff. rewrite Hl. apply strict_prefix_less. }
  assert (eq = false) as ->.
  { destruct eq; [|reflexivity]. exfalso.
    assert (Hall : elementwise_equal (logical v) (logical v'))
      by (apply Heq_iff; reflexivity).
    apply Forall2_length in Hall. rewrite Hl, length_app in Hall.
    simpl in Hall. lia. }
  exists v'. unfold op_le, op_ne. rewrite Hlt, Heq. auto.
Qed.

(** *** Appends into the slots the buffer has *)

Lemma PushBack_all_slots v (items : list T) :
  consistent v -> is_size_t (capacity_ v) ->
  size_ v + Z.of_nat (length items) <= allocated v ->
  exists v',
    PushBack_all v items = Done v'
    /\ consistent v'
    /\ capacity_ v' = capacity_ v
    /\ allocated v' = allocated v
    /\ size_ v' = size_ v + Z.of_nat (length items)
    /\ logical v' = logical v ++ items.
Proof.
  revert v.
  induction items as [|x items IH]; intros v Hv Hcap Hfit;
    cbn [PushBack_all length] in *.
  - exists v. rewrite app_nil_r. split; [reflexivity|].
    split; [exact Hv|]. repeat split; lia.
  - assert (Hne : size_ v <> capacity_ v) by (destruct Hv; lia).
    destruct (PushBack_slots v x)
      as (v1 & -> & Hv1 & Hs & Hc & Ha & Hl);
      [split; [exact Hv | lia] | exact Hcap | tauto |]. run.
    specialize (Ha Hne).
    destruct (Z.eqb_spec (size_ v) (capacity_ v)); [contradiction|].
    assert (Hal1 : allocated v1 = allocated v)
      by (unfold allocated; rewrite Ha, length_insert; reflexivity).
    destruct (IH v1) as (v' & -> & Hv' & Hc' & Ha' & Hs' & Hl');
      [exact Hv1 | rewrite Hc; exact Hcap | lia |].
    exists v'. split; [reflexivity|]. split; [exact Hv'|].
    split; [lia|]. split; [lia|]. split; [lia|].
    rewrite Hl', Hl, <- app_assoc. reflexivity.
Qed.

(** X19: [Clear] makes any container whose sequence lay in its storage
    empty and leaves its buffer and capacity untouched; appending afterwards
    as many elements as the buffer has slots, or fewer, runs without
    reallocation, and the container then holds exactly what was appended. *)
Theorem Clear_keeps_storage v (items : list T) :
  consistent v -> is_size_t (capacity_ v) ->
  Z.of_nat (length items) <= allocated v ->
  IsEmpty (Clear v) = true
  /\ array_ (Clear v) = array_ v
  /\ GetCapacity (Clear v) = GetCapacity v
  /\ exists v',
      PushBack_all (Clear v) items = Done v'
      /\ GetCapacity v' = GetCapacity v
      /\ allocated v' = allocated v
      /\ logical v' = items.
Proof.
  intros [Hsz Hal] Hcap Hfit.
  split; [reflexivity|]. split; [reflexivity|]. split; [reflexivity|].
  destruct (PushBack_all_slots (Clear v) items)
    as (v' & Hv' & _ & Hc & Ha & _ & Hl).
  - unfold consistent, allocated, Clear in *. simpl. lia.
  - exact Hcap.
  - unfold allocated, Clear in *. simpl. lia.
  - exists v'. split; [exact Hv'|]. split; [exact Hc|].
    split; [exact Ha | exact Hl].
Qed.

(** *** Requests of arbitrary size *)

(** X16: a [Reserve] request at or below the capacity returns and leaves
    the container exactly as it was.  Whenever [Reserve] returns, the
    sequence and the size are what they were and the capacity is the larger
    of the old capacity and the request; for a request above the capacity
    the new buffer has exactly the requested number of slots. *)
Theorem Reserve_grows_exactly v (new_capacity : Z) :
  consistent v ->
  (new_capacity <= GetCapacity v -> Reserve v new_capacity = Done v)
  /\ forall v',
      Reserve v new_capacity = Done v' ->
      logical v' = logical v
      /\ GetSize v' = GetSize v
      /\ GetCapacity v' = Z.max (GetCapacity v) new_capacity
      /\ (GetCapacity v < new_capacity -> allocated v' = new_capacity).
Proof.
  intros [Hsz Hal]. unfold Reserve, GetSize, GetCapacity.
  destruct (Z.ltb_spec (capacity_ v) new_capacity) as [Hlt|Hge].
  - split; [lia|]. intros v'.
    rewrite distance_logical by lia. run.
    destruct (std_move_all v new_capacity) as [old ->]; [lia..|]. run.
    pose proof (length_logical v Hsz) as Hlen.
    intros [= <-]. unfold allocated. run.
    split. { unfold logical at 1. run. apply take_app_length'. lia. }
    split; [reflexivity|]. split; [lia|]. intros _. lens.
  - split; [reflexivity|]. intros v' [= <-].
    repeat split; (reflexivity || lia).
Qed.

(** The branches of [Resize] that keep the buffer, when the slots up to
    the new size are allocated. *)
Lemma Resize_in_place_spec v (new_size : Z) :
  consistent v -> 0 <= new_size <= allocated v ->
  exists v',
    Resize v new_size = Done v'
    /\ size_ v' = new_size
    /\ capacity_ v' = capacity_ v
    /\ logical v'
       = take (Z.to_nat new_size)
           (logical v
              ++ replicate (Z.to_nat (new_size - size_ v)) elt_default).
Proof.
  intros [Hsz Hal] Hnew. unfold allocated in *. unfold Resize, begin_.
  destruct (Z.ltb_spec (capacity_ v) new_size) as [|_]; [lia|].
  pose proof (length_logical v) as Hlen. unfold allocated in Hlen.
  destruct (Z.ltb_spec (size_ v) new_size) as [Hlt|Hge].
  - unfold distance. rewrite !Z.add_0_l.
    destruct (Z.leb_spec (size_ v) new_size) as [_|]; [|lia]. run.
    rewrite for_each_reset_fill, std_fill_Z by lia. run.
    eexists. split; [reflexivity|]. run.
    split; [reflexivity|]. split; [reflexivity|].
    unfold logical. run. rewrite app_assoc.
    rewrite (take_ge (_ ++ replicate _ _)) by lens.
    apply take_app_length'. lens.
  - eexists. split; [reflexivity|]. run.
    split; [reflexivity|]. split; [reflexivity|].
    unfold logical. run.
    replace (Z.to_nat (new_size - size_ v)) with 0%nat by lia.
    rewrite app_nil_r, take_take. f_equal. lia.
Qed.

(** A [Resize] within the recorded capacity that returned wrote only
    allocated slots. *)
Lemma Resize_Done_slots v (new_size : Z) v' :
  consistent v -> 0 <= new_size <= capacity_ v ->
  Resize v new_size = Done v' -> new_size <= allocated v.
Proof.
  intros [Hsz Hal] Hnew H. unfold Resize, begin_ in H.
  destruct (Z.ltb_spec (capacity_ v) new_size); [lia|].
  destruct (Z.ltb_spec (size_ v) new_size) as [Hlt|]; [|lia].
  rewrite !Z.add_0_l in H.
  first_step H as m Hm. first_step H as buf Hreset.
  apply distance_Done in Hm as [_ ->].
  rewrite for_each_reset_fill in Hreset.
  apply std_fill_Done in Hreset as [_ Hrange]. unfold allocated. lia.
Qed.

(** X17: on a container whose sequence lies in its storage, [Resize] to a
    size for which the buffer has the slots returns; and whenever [Resize]
    returns, whatever the requested size, the container has that size and
    holds the old sequence cut or padded with [Type()] to that length, and
    its capacity has not gone down. *)
Theorem Resize_cuts_or_pads v (new_size : Z) :
  consistent v -> is_size_t new_size ->
  (new_size <= allocated v -> exists v', Resize v new_size = Done v')
  /\ forall v',
      Resize v new_size = Done v' ->
      GetSize v' = new_size
      /\ logical v'
         = take (Z.to_nat new_size)
             (logical v
                ++ replicate (Z.to_nat (new_size - size_ v)) elt_default)
      /\ GetCapacity v <= GetCapacity v'.
Proof.
  intros Hv [Hn _]. unfold GetSize, GetCapacity. split.
  - intros Hfit.
    destruct (Resize_in_place_spec v new_size Hv) as (v' & Hv' & _);
      [lia|]. exists v'. exact Hv'.
  - intros v' Hdone.
    destruct (Z.le_gt_cases new_size (capacity_ v)) as [Hle|Hgt].
    + pose proof (Resize_Done_slots v new_size v' Hv (conj Hn Hle) Hdone)
        as Hfit.
      destruct (Resize_in_place_spec v new_size Hv)
        as (w & Hw & Hs & Hc & Hl); [lia|].
      rewrite Hw in Hdone. injection Hdone as <-.
      split; [exact Hs|]. split; [exact Hl | lia].
    + destruct (Resize_grow_spec v new_size Hv Hgt)
        as (w & Hw & Hs & Hc & _ & Hl).
      rewrite Hw in Hdone. injection Hdone as <-.
      unfold GetSize, GetCapacity in *. destruct Hv as [Hsz Hal].
      split; [exact Hs|]. split; [|lia].
      rewrite Hl. symmetry. apply take_ge.
      rewrite length_app, length_replicate, length_logical by lia. lia.
Qed.

(** X1: [SimpleVector(0)] is the empty container without storage; and
    whenever [SimpleVector(size)], respectively [SimpleVector(size, value)],
    returns, the container has exactly [size] elements, capacity [size]
    and that many slots, every element being [Type()], respectively
    [value]. *)
Theorem sized_constructors_fill (n : Z) x :
  is_size_t n ->
  SimpleVector_size 0 = Done SimpleVector_default
  /\ (forall v,
       SimpleVector_size n = Done v ->
       wf v /\ GetSize v = n /\ GetCapacity v = n
       /\ logical v = replicate (Z.to_nat n) elt_default)
  /\ (forall w,
       SimpleVector_size_value n x = Done w ->
       wf w /\ GetSize w = n /\ GetCapacity w = n
       /\ logical w = replicate (Z.to_nat n) x).
Proof.
  intros Hn. split; [reflexivity|].
  assert (Hfill : forall y w,
    SimpleVector_size_value n y = Done w ->
    wf w /\ GetSize w = n /\ GetCapacity w = n
    /\ logical w = replicate (Z.to_nat n) y).
  { intros y w. rewrite (SimpleVector_size_value_spec n y Hn).
    intros [= <-]. destruct Hn as [Hn _].
    unfold wf, allocated, GetSize, GetCapacity, logical. run.
    rewrite length_replicate, take_replicate, Nat.min_id.
    repeat split; (reflexivity || lia). }
  split; [exact (Hfill elt_default) | exact (Hfill x)].
Qed.

(** X2: when a [Reserve] request above the capacity returns, appends that
    keep the size within the request never change the capacity again, and
    the container then holds the old sequence followed by the appended
    elements. *)
Theorem Reserve_then_appends v (new_capacity : Z) v' (items : list T) :
  consistent v -> is_size_t new_capacity ->
  GetCapacity v < new_capacity ->
  Reserve v new_capacity = Done v' ->
  size_ v + Z.of_nat (length items) <= new_capacity ->
  exists v'',
    PushBack_all v' items = Done v''
    /\ GetCapacity v'' = new_capacity
    /\ allocated v'' = new_capacity
    /\ logical v'' = logical v ++ items.
Proof.
  intros Hv Hn Hlt Hres Hfit. unfold GetCapacity in *.
  assert (Hpost :
    logical v' = logical v /\ size_ v' = size_ v
    /\ capacity_ v' = new_capacity /\ allocated v' = new_capacity).
  { destruct Hv as [Hsz Hal]. unfold Reserve in Hres.
    destruct (Z.ltb_spec (capacity_ v) new_capacity) as [_|]; [|lia].
    rewrite distance_logical in Hres by lia. run_in Hres.
    destruct (std_move_all v new_capacity) as [old Hmove]; [lia..|].
    rewrite Hmove in Hres. run_in Hres. injection Hres as <-.
    pose proof (length_logical v Hsz) as Hlen. unfold allocated. run.
    split. { unfold logical at 1. run. apply take_app_length'. lia. }
    split; [reflexivity|]. split; [reflexivity|]. lens. }
  destruct Hpost as (Hl & Hs & Hc & Ha). destruct Hv as [Hsz Hal].
  destruct (PushBack_all_slots v' items)
    as (v'' & Hv'' & _ & Hc'' & Ha'' & _ & Hl'').
  - unfold consistent. lia.
  - rewrite Hc. exact Hn.
  - lia.
  - exists v''. split; [exact Hv''|]. split; [lia|]. split; [lia|].
    rewrite Hl'', Hl. reflexivity.
Qed.

End Modifiers.

(** ** The order on containers of [int] *)

(** On sequences of [int], exactly one of: equal, less, greater. *)
Lemma int_sequences_trichotomy (l1 l2 : list Z) :
  (elementwise_equal l1 l2
   /\ ~ lexicographic_less l1 l2 /\ ~ lexicographic_less l2 l1)
  \/ (~ elementwise_equal l1 l2
      /\ lexicographic_less l1 l2 /\ ~ lexicographic_less l2 l1)
  \/ (~ elementwise_equal l1 l2
      /\ ~ lexicographic_less l1 l2 /\ lexicographic_less l2 l1).
Proof.
  unfold elementwise_equal. revert l2.
  induction l1 as [|x l1 IH]; intros [|y l2].
  - left. split; [constructor|]. split; intros H; inversion H.
  - right; left. split; [intros H; inversion H|].
    split; [constructor | intros H; inversion H].
  - right; right. split; [intros H; inversion H|].
    split; [intros H; inversion H | constructor].
  - destruct (Z.lt_trichotomy x y) as [Hlt | [-> | Hgt]].
    + right; left.
      assert (Hxy : elt_lt x y = true) by (apply Z.ltb_lt; exact Hlt).
      assert (Hyx : elt_lt y x = false) by (apply Z.ltb_ge; lia).
      split; [intros H; inversion H; subst|].
      { assert (x = y) by (apply Z.eqb_eq; assumption). lia. }
      split; [apply lex_first, Hxy|].
      intros H; inversion H; subst; congruence.
    + assert (Hyy : elt_lt y y = false) by apply Z.ltb_irrefl.
      assert (Heq : elt_eq y y = true) by apply Z.eqb_refl.
      destruct (IH l2) as [(He & Hn1 & Hn2) | [(Hne & Hl & Hn) | (Hne & Hn & Hl)]].
      * left. split; [constructor; assumption|].
        split; intros H; inversion H; subst; (congruence || tauto).
      * right; left. split; [intros H; inversion H; tauto|].
        split; [apply lex_next; assumption|].
        intros H; inversion H; subst; (congruence || tauto).
      * right; right. split; [intros H; inversion H; tauto|].
        split; [|apply lex_next; assumption].
        intros H; inversion H; subst; (congruence || tauto).
    + right; right.
      assert (Hyx : elt_lt y x = true) by (apply Z.ltb_lt; lia).
      assert (Hxy : elt_lt x y = false) by (apply Z.ltb_ge; lia).
      split; [intros H; inversion H; subst|].
      { assert (x = y) by (apply Z.eqb_eq; assumption). lia. }
      split; [|apply lex_first, Hyx].
      intros H; inversion H; subst; congruence.
Qed.

(** X25: on containers of [int], exactly one of [a == b], [a < b], [a > b]
    holds, [a <= b] is the negation of [a > b] and [a >= b] is the negation
    of [a < b]. *)
Theorem int_operators_total_order (a b : SimpleVector Z) :
  0 <= size_ a <= allocated a -> 0 <= size_ b <= allocated b ->
  exists eq lt gt : bool,
    op_eq a b = Done eq /\ op_lt a b = Done lt /\ op_gt a b = Done gt
    /\ ((eq = true /\ lt = false /\ gt = false)
        \/ (eq = false /\ lt = true /\ gt = false)
        \/ (eq = false /\ lt = false /\ gt = true))
    /\ op_le a b = Done (negb gt)
    /\ op_ge a b = Done (negb lt).
Proof.
  intros Ha Hb.
  destruct (op_eq_spec a b Ha Hb) as (eq & Heq & Heq_iff).
  destruct (op_lt_spec a b Ha Hb) as (lt & Hlt & Hlt_iff).
  destruct (op_lt_spec b a Hb Ha) as (gt & Hgt & Hgt_iff).
  exists eq, lt, gt. unfold op_le, op_ge, op_gt. rewrite Heq, Hlt, Hgt. run.
  split; [reflexivity|]. split; [reflexivity|]. split; [reflexivity|].
  destruct (int_sequences_trichotomy (logical a) (logical b))
    as [(H1 & H2 & H3) | [(H1 & H2 & H3) | (H1 & H2 & H3)]];
    destruct eq, lt, gt; simpl; intuition (discriminate || auto).
Qed.

(** ** Instances of the further properties *)

Lemma copy_is_faithful_witness :
  consistent overstated
  /\ exists v',
      SimpleVector_copy overstated = Done v'
      /\ wf v'
      /\ logical v' = logical overstated
      /\ GetSize v' = GetSize overstated
      /\ GetCapacity v' = GetCapacity overstated.
Proof.
  assert (H1 : consistent overstated) by concrete.
  split; [exact H1|]. exact (copy_is_faithful overstated H1).
Defined.

Lemma assign_copy_copies_witness :
  two_objects !! 0%nat = Some SimpleVector_default
  /\ two_objects !! 1%nat = Some one_two
  /\ consistent one_two
  /\ exists σ' copy,
      assign_copy 0 1 two_objects = Done σ'
      /\ σ' !! 0%nat = Some copy
      /\ logical copy = logical one_two
      /\ GetSize copy = GetSize one_two
      /\ σ' !! 1%nat = Some one_two
      /\ (forall l, l ≠ 0%nat -> σ' !! l = two_objects !! l)
      /\ (0%nat = 1%nat -> σ' = two_objects).
Proof.
  assert (H1 : two_objects !! 0%nat = Some SimpleVector_default)
    by reflexivity.
  assert (H2 : two_objects !! 1%nat = Some one_two) by reflexivity.
  assert (H3 : consistent one_two) by concrete.
  repeat (split; [assumption|]).
  exact (assign_copy_copies two_objects 0%nat 1%nat _ _ H1 H2 H3).
Defined.

Lemma assign_move_copies_witness :
  0%nat ≠ 1%nat
  /\ two_objects !! 0%nat = Some SimpleVector_default
  /\ two_objects !! 1%nat = Some one_two
  /\ consistent one_two
  /\ exists σ' copy,
      assign_move 0 1 two_objects = Done σ'
      /\ σ' !! 1%nat = Some one_two
      /\ σ' !! 0%nat = Some copy
      /\ logical copy = logical one_two
      /\ GetSize copy = GetSize one_two
      /\ GetCapacity copy = GetCapacity one_two.
Proof.
  assert (H0 : 0%nat ≠ 1%nat) by lia.
  assert (H1 : two_objects !! 0%nat = Some SimpleVector_default)
    by reflexivity.
  assert (H2 : two_objects !! 1%nat = Some one_two) by reflexivity.
  assert (H3 : consistent one_two) by concrete.
  repeat (split; [assumption|]).
  exact (assign_move_copies two_objects 0%nat 1%nat _ _ H0 H1 H2 H3).
Defined.

Lemma PushBack_within_capacity_witness :
  wf roomy /\ is_size_t (capacity_ roomy) /\ size_ roomy < capacity_ roomy
  /\ exists v',
      PushBack roomy 3 = Done v'
      /\ GetCapacity v' = GetCapacity roomy
      /\ array_ v' = <[Z.to_nat (size_ roomy) := 3]> (array_ roomy)
      /\ GetSize v' = GetSize roomy + 1
      /\ logical v' = logical roomy ++ [3].
Proof.
  assert (H1 : wf roomy) by concrete.
  assert (H2 : is_size_t (capacity_ roomy)) by concrete.
  assert (H3 : size_ roomy < capacity_ roomy) by (simpl; lia).
  repeat (split; [assumption|]).
  exact (PushBack_within_capacity roomy 3 H1 H2 H3).
Defined.

Lemma PopBack_drops_last_witness :
  consistent one_two /\ is_size_t (size_ one_two)
  /\ (PopBack one_two = Fail AssertFailure <-> GetSize one_two = 0)
  /\ (0 < GetSize one_two ->
      exists v' x,
        PopBack one_two = Done v'
        /\ logical one_two = logical v' ++ [x]
        /\ GetSize v' = GetSize one_two - 1
        /\ GetCapacity v' = GetCapacity one_two
        /\ array_ v' = array_ one_two).
Proof.
  assert (H1 : consistent one_two) by concrete.
  assert (H2 : is_size_t (size_ one_two)) by concrete.
  repeat (split; [assumption|]).
  exact (PopBack_drops_last one_two H1 H2).
Defined.

Lemma PushBack_all_within_capacity_witness :
  wf roomy /\ is_size_t (capacity_ roomy)
  /\ size_ roomy + Z.of_nat (length [3; 4]) <= capacity_ roomy
  /\ exists v',
      PushBack_all roomy [3; 4] = Done v'
      /\ wf v'
      /\ GetCapacity v' = GetCapacity roomy
      /\ GetSize v' = GetSize roomy + Z.of_nat (length [3; 4])
      /\ logical v' = logical roomy ++ [3; 4].
Proof.
  assert (H1 : wf roomy) by concrete.
  assert (H2 : is_size_t (capacity_ roomy)) by concrete.
  assert (H3 : size_ roomy + Z.of_nat (length [3; 4]) <= capacity_ roomy)
    by (simpl; lia).
  repeat (split; [assumption|]).
  exact (PushBack_all_within_capacity roomy [3; 4] H1 H2 H3).
Defined.

Lemma PushBack_all_from_empty_witness :
  2 * Z.of_nat (length [1; 2; 3]) <= size_t_modulus
  /\ exists v : SimpleVector Z,
      PushBack_all SimpleVector_default [1; 2; 3] = Done v
      /\ wf v
      /\ logical v = [1; 2; 3]
      /\ GetSize v = Z.of_nat (length [1; 2; 3])
      /\ ([1; 2; 3] = [] -> GetCapacity v = 0)
      /\ ([1; 2; 3] <> [] ->
          exists k, 0 <= k /\ GetCapacity v = 2 ^ k
                    /\ Z.of_nat (length [1; 2; 3]) <= GetCapacity v
                       < 2 * Z.of_nat (length [1; 2; 3])).
Proof.
  assert (H1 : 2 * Z.of_nat (length [1; 2; 3]) <= size_t_modulus)
    by (unfold size_t_modulus; simpl; lia).
  split; [exact H1|]. exact (PushBack_all_from_empty [1; 2; 3] H1).
Defined.

Lemma Erase_removes_witness :
  consistent one_two_three /\ is_size_t (size_ one_two_three)
  /\ 0 <= 1 < size_ one_two_three
  /\ exists v',
      Erase one_two_three 1 = Done (1, v')
      /\ logical v'
         = take (Z.to_nat 1) (logical one_two_three)
             ++ drop (S (Z.to_nat 1)) (logical one_two_three)
      /\ GetSize v' = GetSize one_two_three - 1
      /\ GetCapacity v' = GetCapacity one_two_three
      /\ allocated v' = allocated one_two_three
      /\ (1 = size_ one_two_three - 1 -> 1 = end_ v').
Proof.
  assert (H1 : consistent one_two_three) by concrete.
  assert (H2 : is_size_t (size_ one_two_three)) by concrete.
  assert (H3 : 0 <= 1 < size_ one_two_three) by (simpl; lia).
  repeat (split; [assumption|]).
  exact (Erase_removes one_two_three 1 H1 H2 H3).
Defined.

Lemma Erase_at_end_invalid_witness :
  is_size_t (size_ one_two)
  /\ Erase one_two (end_ one_two) = Fail InvalidRange.
Proof.
  assert (H1 : is_size_t (size_ one_two)) by concrete.
  split; [exact H1|]. exact (Erase_at_end_invalid one_two H1).
Defined.


Lemma subscript_agrees_with_At_witness :
  consistent one_two_three /\ 0 <= 2
  /\ (2 < GetSize one_two_three ->
      exists x,
        logical one_two_three !! Z.to_nat 2 = Some x
        /\ subscript one_two_three 2 = Done x
        /\ At one_two_three 2 = Done (x, one_two_three))
  /\ (GetSize one_two_three <= 2 ->
      subscript one_two_three 2 = Fail AssertFailure
      /\ At one_two_three 2 = Fail OutOfRangeError).
Proof.
  assert (H1 : consistent one_two_three) by concrete.
  assert (H2 : 0 <= 2) by lia.
  repeat (split; [assumption|]).
  exact (subscript_agrees_with_At one_two_three 2 H1 H2).
Defined.

Lemma subscript_assign_then_At_witness :
  consistent one_two_three /\ 0 <= 1 < size_ one_two_three
  /\ exists v',
      subscript_assign one_two_three 1 9 = Done v'
      /\ logical v' = <[Z.to_nat 1 := 9]> (logical one_two_three)
      /\ GetSize v' = GetSize one_two_three
      /\ GetCapacity v' = GetCapacity one_two_three
      /\ allocated v' = allocated one_two_three
      /\ At v' 1 = Done (9, v').
Proof.
  assert (H1 : consistent one_two_three) by concrete.
  assert (H2 : 0 <= 1 < size_ one_two_three) by (simpl; lia).
  repeat (split; [assumption|]).
  exact (subscript_assign_then_At one_two_three 1 9 H1 H2).
Defined.

Lemma reachable_consistent_witness :
  reachable overstated /\ consistent overstated.
Proof.
  assert (H1 : reachable overstated)
    by exact (resized_2_3_reachable overstated resized_2_3_result).
  split; [exact H1|]. exact (reachable_consistent overstated H1).
Defined.

Lemma copy_compares_equal_witness :
  consistent one_two
  /\ Forall (fun x => elt_eq x x = true) (logical one_two)
  /\ exists v',
      SimpleVector_copy one_two = Done v'
      /\ op_eq one_two v' = Done true
      /\ op_ne one_two v' = Done false.
Proof.
  assert (H1 : consistent one_two) by concrete.
  assert (H2 : Forall (fun x => elt_eq x x = true) (logical one_two))
    by (repeat constructor).
  repeat (split; [assumption|]).
  exact (copy_compares_equal one_two H1 H2).
Defined.

Lemma int_operators_total_order_witness :
  0 <= size_ one_two_three <= allocated one_two_three
  /\ 0 <= size_ one_three <= allocated one_three
  /\ exists eq lt gt : bool,
      op_eq one_two_three one_three = Done eq
      /\ op_lt one_two_three one_three = Done lt
      /\ op_gt one_two_three one_three = Done gt
      /\ ((eq = true /\ lt = false /\ gt = false)
          \/ (eq = false /\ lt = true /\ gt = false)
          \/ (eq = false /\ lt = false /\ gt = true))
      /\ op_le one_two_three one_three = Done (negb gt)
      /\ op_ge one_two_three one_three = Done (negb lt).
Proof.
  assert (H1 : 0 <= size_ one_two_three <= allocated one_two_three)
    by concrete.
  assert (H2 : 0 <= size_ one_three <= allocated one_three) by concrete.
  repeat (split; [assumption|]).
  exact (int_operators_total_order one_two_three one_three H1 H2).
Defined.

Lemma sized_constructors_fill_witness :
  is_size_t 3
  /\ SimpleVector_size 3
     = Done {| array_ := [0; 0; 0]; size_ := 3; capacity_ := 3 |}
  /\ SimpleVector_size_value 3 7
     = Done {| array_ := [7; 7; 7]; size_ := 3; capacity_ := 3 |}
  /\ SimpleVector_size (T:=Z) 0 = Done SimpleVector_default
  /\ (forall v : SimpleVector Z,
       SimpleVector_size 3 = Done v ->
       wf v /\ GetSize v = 3 /\ GetCapacity v = 3
       /\ logical v = replicate (Z.to_nat 3) elt_default)
  /\ (forall w : SimpleVector Z,
       SimpleVector_size_value 3 7 = Done w ->
       wf w /\ GetSize w = 3 /\ GetCapacity w = 3
       /\ logical w = replicate (Z.to_nat 3) 7).
Proof.
  assert (H1 : is_size_t 3) by concrete.
  split; [exact H1|]. split; [reflexivity|]. split; [reflexivity|].
  exact (sized_constructors_fill 3 7 H1).
Defined.

Lemma Reserve_then_appends_witness :
  consistent one_two /\ is_size_t 4 /\ GetCapacity one_two < 4
  /\ Reserve one_two 4 = Done roomy
  /\ size_ one_two + Z.of_nat (length [3; 4]) <= 4
  /\ exists v'',
      PushBack_all roomy [3; 4] = Done v''
      /\ GetCapacity v'' = 4
      /\ allocated v'' = 4
      /\ logical v'' = logical one_two ++ [3; 4].
Proof.
  assert (H1 : consistent one_two) by concrete.
  assert (H2 : is_size_t 4) by concrete.
  assert (H3 : GetCapacity one_two < 4) by concrete.
  assert (H4 : Reserve one_two 4 = Done roomy) by reflexivity.
  assert (H5 : size_ one_two + Z.of_nat (length [3; 4]) <= 4)
    by (simpl; lia).
  repeat (split; [assumption|]).
  exact (Reserve_then_appends one_two 4 roomy [3; 4] H1 H2 H3 H4 H5).
Defined.

Lemma PopBack_PushBack_identity_witness :
  appendable popped /\ is_size_t (capacity_ popped)
  /\ (size_ popped = capacity_ popped -> can_double popped)
  /\ exists v1 v2,
      PushBack popped 3 = Done v1
      /\ PopBack v1 = Done v2
      /\ logical v2 = logical popped
      /\ GetSize v2 = GetSize popped
      /\ GetCapacity popped <= GetCapacity v2.
Proof.
  assert (H1 : appendable popped) by (unfold appendable; concrete).
  assert (H2 : is_size_t (capacity_ popped)) by concrete.
  assert (H3 : size_ popped = capacity_ popped -> can_double popped)
    by (intros _; reflexivity).
  repeat (split; [assumption|]).
  exact (PopBack_PushBack_identity popped 3 H1 H2 H3).
Defined.

Lemma Insert_places_value_witness :
  appendable popped /\ is_size_t (capacity_ popped)
  /\ (size_ popped = capacity_ popped -> can_double popped)
  /\ 0 <= 1 <= size_ popped
  /\ exists v',
      Insert popped 1 9 = Done (1, v')
      /\ consistent v'
      /\ GetSize v' = GetSize popped + 1
      /\ GetCapacity v'
         = (if size_ popped =? capacity_ popped
            then Z.max 1 (2 * capacity_ popped)
            else capacity_ popped)
      /\ At v' 1 = Done (9, v')
      /\ logical v'
         = take (Z.to_nat 1) (logical popped)
             ++ 9 :: drop (Z.to_nat 1) (logical popped).
Proof.
  assert (H1 : appendable popped) by (unfold appendable; concrete).
  assert (H2 : is_size_t (capacity_ popped)) by concrete.
  assert (H3 : size_ popped = capacity_ popped -> can_double popped)
    by (intros _; reflexivity).
  assert (H4 : 0 <= 1 <= size_ popped) by (simpl; lia).
  repeat (split; [assumption|]).
  exact (Insert_places_value popped 1 9 H1 H2 H3 H4).
Defined.

Lemma Erase_Insert_round_trip_witness :
  appendable popped /\ is_size_t (capacity_ popped)
  /\ (size_ popped = capacity_ popped -> can_double popped)
  /\ 0 <= 1 <= size_ popped
  /\ exists it v1 it' v2,
      Insert popped 1 9 = Done (it, v1)
      /\ Erase v1 it = Done (it', v2)
      /\ logical v2 = logical popped
      /\ GetSize v2 = GetSize popped.
Proof.
  assert (H1 : appendable popped) by (unfold appendable; concrete).
  assert (H2 : is_size_t (capacity_ popped)) by concrete.
  assert (H3 : size_ popped = capacity_ popped -> can_double popped)
    by (intros _; reflexivity).
  assert (H4 : 0 <= 1 <= size_ popped) by (simpl; lia).
  repeat (split; [assumption|]).
  exact (Erase_Insert_round_trip popped 1 9 H1 H2 H3 H4).
Defined.

Lemma full_buffer_overflows_witness :
  consistent overstated /\ is_size_t (capacity_ overstated)
  /\ size_ overstated <> capacity_ overstated
  /\ size_ overstated = allocated overstated
  /\ PushBack overstated 7 = Fail OutOfBounds
  /\ forall pos,
      0 <= pos <= size_ overstated ->
      Insert overstated pos 7 = Fail OutOfBounds.
Proof.
  assert (H1 : consistent overstated) by concrete.
  assert (H2 : is_size_t (capacity_ overstated)) by concrete.
  assert (H3 : size_ overstated <> capacity_ overstated) by (simpl; lia).
  assert (H4 : size_ overstated = allocated overstated) by reflexivity.
  repeat (split; [assumption|]).
  exact (full_buffer_overflows overstated 7 H1 H2 H3 H4).
Defined.

Lemma Insert_at_end_is_PushBack_witness :
  consistent popped /\ is_size_t (capacity_ popped)
  /\ (size_ popped = capacity_ popped -> can_double popped)
  /\ Insert popped (end_ popped) 3
     = (v' ← PushBack popped 3; mret (end_ popped, v')).
Proof.
  assert (H1 : consistent popped) by concrete.
  assert (H2 : is_size_t (capacity_ popped)) by concrete.
  assert (H3 : size_ popped = capacity_ popped -> can_double popped)
    by (intros _; reflexivity).
  repeat (split; [assumption|]).
  exact (Insert_at_end_is_PushBack popped 3 H1 H2 H3).
Defined.

Lemma append_makes_greater_witness :
  appendable popped /\ is_size_t (capacity_ popped)
  /\ (size_ popped = capacity_ popped -> can_double popped)
  /\ exists v',
      PushBack popped 0 = Done v'
      /\ op_lt popped v' = Done true
      /\ op_le popped v' = Done true
      /\ op_eq popped v' = Done false
      /\ op_ne popped v' = Done true.
Proof.
  assert (H1 : appendable popped) by (unfold appendable; concrete).
  assert (H2 : is_size_t (capacity_ popped)) by concrete.
  assert (H3 : size_ popped = capacity_ popped -> can_double popped)
    by (intros _; reflexivity).
  repeat (split; [assumption|]).
  exact (append_makes_greater popped 0 H1 H2 H3).
Defined.

Lemma Clear_keeps_storage_witness :
  consistent overstated /\ is_size_t (capacity_ overstated)
  /\ Z.of_nat (length [7; 8; 9]) <= allocated overstated
  /\ IsEmpty (Clear overstated) = true
  /\ array_ (Clear overstated) = array_ overstated
  /\ GetCapacity (Clear overstated) = GetCapacity overstated
  /\ exists v',
      PushBack_all (Clear overstated) [7; 8; 9] = Done v'
      /\ GetCapacity v' = GetCapacity overstated
      /\ allocated v' = allocated overstated
      /\ logical v' = [7; 8; 9].
Proof.
  assert (H1 : consistent overstated) by concrete.
  assert (H2 : is_size_t (capacity_ overstated)) by concrete.
  assert (H3 : Z.of_nat (length [7; 8; 9]) <= allocated overstated)
    by concrete.
  repeat (split; [assumption|]).
  exact (Clear_keeps_storage overstated [7; 8; 9] H1 H2 H3).
Defined.

Lemma Reserve_grows_exactly_witness :
  consistent overstated
  /\ Reserve overstated 6
     = Done {| array_ := [0; 0; 0; -1; -1; -1]; size_ := 3; capacity_ := 6 |}
  /\ (6 <= GetCapacity overstated -> Reserve overstated 6 = Done overstated)
  /\ forall v',
      Reserve overstated 6 = Done v' ->
      logical v' = logical overstated
      /\ GetSize v' = GetSize overstated
      /\ GetCapacity v' = Z.max (GetCapacity overstated) 6
      /\ (GetCapacity overstated < 6 -> allocated v' = 6).
Proof.
  assert (H1 : consistent overstated) by concrete.
  split; [exact H1|]. split; [reflexivity|].
  exact (Reserve_grows_exactly overstated 6 H1).
Defined.

Lemma Resize_cuts_or_pads_witness :
  consistent popped /\ is_size_t 3
  /\ Resize popped 3 = Done overstated
  /\ (3 <= allocated popped -> exists v', Resize popped 3 = Done v')
  /\ forall v',
      Resize popped 3 = Done v' ->
      GetSize v' = 3
      /\ logical v'
         = take (Z.to_nat 3)
             (logical popped
                ++ replicate (Z.to_nat (3 - size_ popped)) elt_default)
      /\ GetCapacity popped <= GetCapacity v'.
Proof.
  assert (H1 : consistent popped) by concrete.
  assert (H2 : is_size_t 3) by concrete.
  assert (H3 : Resize popped 3 = Done overstated) by reflexivity.
  repeat (split; [assumption|]).
  exact (Resize_cuts_or_pads popped 3 H1 H2).
Defined.
